(** * Quote-request lifecycle engine of go_plata_task_v2

    A shallow embedding of the Go packages [utils], [models], [database],
    [external], [worker] and [handlers], followed by the properties of the
    specification that are stated about them and by further properties of
    the code.

    Conventions.
    - A Go [map[string]float64] is a [gmap string F]; a nil map reads like
      the empty one, and the one place where a nil map is written to is
      modelled with an [option].
    - [float64] is the carrier [F] of the class [RateNum]; the arithmetic
      the code uses (the constant 1.0 and the division) is the interface.
      Two instances are given: binary64 ([PrimFloat.float]), which is the
      arithmetic the program runs on, and the canonical rationals [Qc],
      which is the exact reading of the specification.
    - A Go [(T, error)] result is a [result T]; a Go call that may panic
      returns an outcome that says so.
    - The PostgreSQL tables are finite maps keyed by their unique columns,
      and the constraints of [createTables] are checked by the statements
      that can break them.
    - What the program does not decide (the clock, the errors of the
      database driver, the answers of the rate provider, the order of a
      [range] over a Go map) is read from an environment [Env], and the
      functions pass the state of the world [World] along.
    - The scheduler ([Start], [Stop]: goroutines, a ticker, channels) is
      not modelled beyond cycles that run one after the other.
    - An HTTP handler is given what the router and the decoders hand it
      and returns the calls it makes on its [http.ResponseWriter]; the
      functions of the Go libraries it calls are parameters. *)

From Stdlib Require Import QArith Qcanon Ascii.
From Stdlib Require Import Floats.PrimFloat.
From stdpp Require Import gmap strings list fin_maps pretty sorting.

Set Default Proof Using "Type".
Local Set Warnings "-inexact-float".

(** ** Errors and results *)

(** The errors the packages build with [fmt.Errorf]; [ErrWrap] is the
    [%w] wrapping of an inner error under a message. *)
Inductive error : Type :=
| ErrMsg (msg : string)
| ErrWrap (msg : string) (inner : error).

Inductive result (A : Type) : Type :=
| Ok (a : A)
| Err (e : error).
Arguments Ok {A} a.
Arguments Err {A} e.

Definition is_ok {A} (r : result A) : bool :=
  match r with Ok _ => true | Err _ => false end.

(** ** float64 as an interface *)

Class RateNum (F : Type) := {
  rate_one : F;
  rate_div : F → F → F
}.

#[export] Instance RateNum_float : RateNum float :=
  {| rate_one := 1%float; rate_div := PrimFloat.div |}.

#[export] Instance RateNum_Qc : RateNum Qc :=
  {| rate_one := 1%Qc; rate_div := Qcdiv |}.

(** ** package utils *)

Module Utils.

Section CalculateExchangeRate.
Context {F : Type} `{RateNum F}.

(** [utils.CalculateExchangeRate]: both codes are looked up first, then
    the three-way branch on the literal "USD". *)
Definition CalculateExchangeRate (from to : string)
    (usdRates : gmap string F) : result F :=
  match usdRates !! from with
  | None => Err (ErrMsg ("currency " +:+ from +:+ " not found in rates"))
  | Some fromRate =>
    match usdRates !! to with
    | None => Err (ErrMsg ("currency " +:+ to +:+ " not found in rates"))
    | Some toRate =>
      Ok (if decide (from = "USD") then toRate
          else if decide (to = "USD") then rate_div rate_one fromRate
          else rate_div toRate fromRate)
    end
  end.

End CalculateExchangeRate.

(** The table of the unit tests, in binary64 and in exact arithmetic. *)
Definition testRates_float : gmap string float :=
  <["USD" := 1%float]> (<["EUR" := 0.85%float]> (<["MXN" := 18.5%float]> ∅)).

Definition testRates : gmap string Qc :=
  <["USD" := 1%Qc]> (<["EUR" := Q2Qc (85 # 100)]> (<["MXN" := Q2Qc (185 # 10)]> ∅)).


End Utils.

(** ** package models *)

Module Models.

Definition USD : string := "USD".
Definition EUR : string := "EUR".
Definition MXN : string := "MXN".

Definition SupportedCurrencies : list string := [USD; EUR; MXN].

Definition IsSupportedCurrencyFromList (currency : string)
    (supportedList : list string) : bool :=
  existsb (λ supported, bool_decide (supported = currency)) supportedList.

Definition IsSupportedCurrency (currency : string) : bool :=
  IsSupportedCurrencyFromList currency SupportedCurrencies.

(** [time.Time] values are nanoseconds since the epoch. *)
Record QuoteRequest : Type := {
  ID : string;
  From : string;
  To : string;
  Status : string;
  CreatedAt : Z;
  UpdatedAt : Z
}.

Record Quote (F : Type) : Type := {
  QuoteID : string;
  QuoteFrom : string;
  QuoteTo : string;
  Rate : F;
  QuoteCreatedAt : Z;
  QuoteUpdatedAt : Z
}.
Arguments QuoteID {F} _.
Arguments QuoteFrom {F} _.
Arguments QuoteTo {F} _.
Arguments Rate {F} _.
Arguments QuoteCreatedAt {F} _.
Arguments QuoteUpdatedAt {F} _.

(** The decoded reply of the rate provider. A Go map field that the JSON
    payload leaves out (or sets to null) stays nil: [Rates = None]. *)
Record ExternalAPIResponse (F : Type) : Type := {
  Success : bool;
  Rates : option (gmap string F);
  Date : string
}.
Arguments Success {F} _.
Arguments Rates {F} _.
Arguments Date {F} _.

#[export] Instance QuoteRequest_eq_dec : EqDecision QuoteRequest.
Proof. solve_decision. Defined.

End Models.
Export Models.

(** ** The database and its surroundings *)

(** A row of [quote_requests] (the primary key [id] is the key of the
    table) and a row of [quotes] (the table is keyed by its
    [UNIQUE(from_currency, to_currency)] pair, [id] is its primary key).
    [rate] is the value handed to the statement; the rounding of the
    [DECIMAL(20,8)] column is not modelled. *)
Record RequestRow : Type := {
  from_currency : string;
  to_currency : string;
  status : string;
  created_at : Z;
  updated_at : Z
}.

Record QuoteRow (F : Type) : Type := {
  quote_id : string;
  rate : F;
  quote_created_at : Z;
  quote_updated_at : Z
}.
Arguments quote_id {F} _.
Arguments rate {F} _.
Arguments quote_created_at {F} _.
Arguments quote_updated_at {F} _.

(** The statements sent to the database, with their arguments. *)
Inductive Stmt (F : Type) : Type :=
| InsertRequest (id from to st : string) (created updated : Z)
| UpdateStatus (st : string) (updated : Z) (id : string)
| RefreshRequest (updated : Z) (id : string)
| SelectRequest (id : string)
| SelectPendingByPair (from to : string)
| SelectPending
| UpsertQuoteStmt (id from to : string) (r : F) (created updated : Z)
| SelectQuote (from to : string).
Arguments InsertRequest {F}.
Arguments UpdateStatus {F}.
Arguments RefreshRequest {F}.
Arguments SelectRequest {F}.
Arguments SelectPendingByPair {F}.
Arguments SelectPending {F}.
Arguments UpsertQuoteStmt {F}.
Arguments SelectQuote {F}.

Inductive Level : Type := DebugLevel | InfoLevel | WarnLevel | ErrorLevel.

(** A logrus entry: level, message, [WithError] and the [request_id] field. *)
Record LogEntry : Type := {
  level : Level;
  message : string;
  log_error : option error;
  log_request_id : option string
}.

(** What the HTTP exchange with the rate provider can come to. *)
Inductive BodyOutcome (F : Type) : Type :=
| ReadFails (e : error)
| UnmarshalFails (e : error)
| Decoded (apiResp : ExternalAPIResponse F).
Arguments ReadFails {F}.
Arguments UnmarshalFails {F}.
Arguments Decoded {F}.

Inductive HttpOutcome (F : Type) : Type :=
| NewRequestFails (e : error)
| DoFails (e : error)
| Response (statusCode : Z) (body : BodyOutcome F).
Arguments NewRequestFails {F}.
Arguments DoFails {F}.
Arguments Response {F}.

(** Everything the program does not decide itself:
    - [clock n] is what the [n]-th call of [time.Now()] returns;
    - [dbFails n s] tells whether the [n]-th statement sent to the
      database, [s], comes back with an error other than the violation of
      a key or of the unique index, which the model decides itself (lost
      connection, timeout, a value too long for its [VARCHAR] column, ...);
    - [http n symbols] is the outcome of the [n]-th request to the rate
      provider;
    - [rangePriority n] ranks the keys of a Go map for the [n]-th
      [for ... range] over it: Go leaves the order of the visit
      unspecified, and every order is the one of some ranking. *)
Record Env (F : Type) : Type := {
  clock : nat → Z;
  dbFails : nat → Stmt F → bool;
  http : nat → list string → HttpOutcome F;
  rangePriority : nat → string → nat
}.
Arguments clock {F} _ _.
Arguments dbFails {F} _ _ _.
Arguments http {F} _ _ _.
Arguments rangePriority {F} _ _ _.

Definition noDbFaults {F} (env : Env F) : Prop :=
  ∀ n s, dbFails env n s = false.

(** The state: the two tables, the counters that index the environment,
    and the log. *)
Record World (F : Type) : Type := {
  quote_requests : gmap string RequestRow;
  quotes : gmap (string * string) (QuoteRow F);
  ticks : nat;
  calls : nat;
  fetches : nat;
  logs : list LogEntry
}.
Arguments quote_requests {F} _.
Arguments quotes {F} _.
Arguments ticks {F} _.
Arguments calls {F} _.
Arguments fetches {F} _.
Arguments logs {F} _.

Section world.
Context {F : Type}.
Implicit Types (w : World F) (env : Env F).

Definition set_requests (rs : gmap string RequestRow) w : World F :=
  {| quote_requests := rs; quotes := quotes w; ticks := ticks w;
     calls := calls w; fetches := fetches w; logs := logs w |}.

Definition set_quotes (qs : gmap (string * string) (QuoteRow F)) w : World F :=
  {| quote_requests := quote_requests w; quotes := qs; ticks := ticks w;
     calls := calls w; fetches := fetches w; logs := logs w |}.

(** [time.Now()] *)
Definition now env w : Z * World F :=
  (clock env (ticks w),
   {| quote_requests := quote_requests w; quotes := quotes w;
      ticks := S (ticks w); calls := calls w; fetches := fetches w;
      logs := logs w |}).

(** Sending a statement: [true] when the driver reports an error. *)
Definition send env (s : Stmt F) w : bool * World F :=
  (dbFails env (calls w) s,
   {| quote_requests := quote_requests w; quotes := quotes w;
      ticks := ticks w; calls := S (calls w); fetches := fetches w;
      logs := logs w |}).

Definition roundTrip env (symbols : list string) w : HttpOutcome F * World F :=
  (http env (fetches w) symbols,
   {| quote_requests := quote_requests w; quotes := quotes w;
      ticks := ticks w; calls := calls w; fetches := S (fetches w);
      logs := logs w |}).

Definition logEntry (e : LogEntry) w : World F :=
  {| quote_requests := quote_requests w; quotes := quotes w;
     ticks := ticks w; calls := calls w; fetches := fetches w;
     logs := logs w ++ [e] |}.

Definition logMsg (l : Level) (msg : string) w : World F :=
  logEntry {| level := l; message := msg; log_error := None;
              log_request_id := None |} w.

Definition logErr (l : Level) (msg : string) (e : error)
    (request_id : option string) w : World F :=
  logEntry {| level := l; message := msg; log_error := Some e;
              log_request_id := request_id |} w.

Definition emptyWorld : World F :=
  {| quote_requests := ∅; quotes := ∅; ticks := 0; calls := 0; fetches := 0;
     logs := [] |}.

End world.

(** The error a failed statement comes back with. *)
Definition driverError : error := ErrMsg "driver: bad connection".
Definition uniqueViolation (constraint : string) : error :=
  ErrMsg ("pq: duplicate key value violates unique constraint " +:+ constraint).

(** ** package database *)

Module Database.

Section database.
Context {F : Type} (env : Env F).
Implicit Types (w : World F) (rs : gmap string RequestRow).

(** What [Scan] fills a [models.QuoteRequest] with. *)
Definition mkRequest (id : string) (row : RequestRow) : QuoteRequest :=
  {| ID := id; From := from_currency row; To := to_currency row;
     Status := status row; CreatedAt := created_at row;
     UpdatedAt := updated_at row |}.

Definition mkQuote (from to : string) (row : QuoteRow F) : Quote F :=
  {| QuoteID := quote_id row; QuoteFrom := from; QuoteTo := to;
     Rate := rate row; QuoteCreatedAt := quote_created_at row;
     QuoteUpdatedAt := quote_updated_at row |}.

(** [WHERE from_currency = $1 AND to_currency = $2 AND status = 'pending'] *)
Definition isPendingFor (from to : string) (row : RequestRow) : Prop :=
  from_currency row = from ∧ to_currency row = to ∧ status row = "pending".

#[export] Instance isPendingFor_dec from to row : Decision (isPendingFor from to row).
Proof. unfold isPendingFor. apply _. Defined.

Definition pendingRows (from to : string) rs : list (string * RequestRow) :=
  filter (λ ir, isPendingFor from to ir.2) (map_to_list rs).

(** The rows that [idx_pending_quote_requests], the unique index on
    [(from_currency, to_currency) WHERE status = 'pending'], would set
    against row [id] becoming pending. *)
Definition otherPending (id : string) (row : RequestRow) rs
    : list (string * RequestRow) :=
  filter (λ ir, ir.1 ≠ id) (pendingRows (from_currency row) (to_currency row) rs).

Definition generateID w : string * World F :=
  let '(t, w) := now env w in (pretty t, w).

Definition CreateQuoteRequest (from to : string) w
    : result QuoteRequest * World F :=
  let '(t, w) := now env w in
  let '(id, w) := generateID w in
  let '(failed, w) := send env (InsertRequest id from to "pending" t t) w in
  if failed then
    (Err (ErrWrap "failed to create quote request" driverError), w)
  else if decide (is_Some (quote_requests w !! id)) then
    (Err (ErrWrap "failed to create quote request"
            (uniqueViolation "quote_requests_pkey")), w)
  else if decide (pendingRows from to (quote_requests w) = []) then
    let row := {| from_currency := from; to_currency := to;
                  status := "pending"; created_at := t; updated_at := t |} in
    (Ok (mkRequest id row), set_requests (<[id := row]> (quote_requests w)) w)
  else
    (Err (ErrWrap "failed to create quote request"
            (uniqueViolation "idx_pending_quote_requests")), w).

(** [UPDATE quote_requests SET status = $1, updated_at = $2 WHERE id = $3]
    through [Exec]: the number of rows affected is not looked at. *)
Definition UpdateQuoteRequestStatus (id st : string) w : result unit * World F :=
  let '(t, w) := now env w in
  let '(failed, w) := send env (UpdateStatus st t id) w in
  if failed then
    (Err (ErrWrap "failed to update quote request status" driverError), w)
  else
    match quote_requests w !! id with
    | None => (Ok (), w)
    | Some row =>
      if decide (st = "pending" ∧ otherPending id row (quote_requests w) ≠ []) then
        (Err (ErrWrap "failed to update quote request status"
                (uniqueViolation "idx_pending_quote_requests")), w)
      else
        let row' := {| from_currency := from_currency row;
                       to_currency := to_currency row; status := st;
                       created_at := created_at row; updated_at := t |} in
        (Ok (), set_requests (<[id := row']> (quote_requests w)) w)
    end.

Definition GetQuoteRequest (id : string) w : result QuoteRequest * World F :=
  let '(failed, w) := send env (SelectRequest id) w in
  if failed then (Err (ErrWrap "failed to get quote request" driverError), w)
  else
    match quote_requests w !! id with
    | None => (Err (ErrMsg "quote request not found"), w)
    | Some row => (Ok (mkRequest id row), w)
    end.

(** [QueryRow] scans the first row of the answer. *)
Definition GetPendingQuoteRequestByPair (from to : string) w
    : result QuoteRequest * World F :=
  let '(failed, w) := send env (SelectPendingByPair from to) w in
  if failed then
    (Err (ErrWrap "failed to get pending quote request" driverError), w)
  else
    match head (pendingRows from to (quote_requests w)) with
    | None => (Err (ErrMsg "pending quote request not found"), w)
    | Some (id, row) => (Ok (mkRequest id row), w)
    end.

(** [UPDATE quote_requests SET updated_at = $1 WHERE id = $2] on a row. *)
Definition refreshed (t : Z) (row : RequestRow) : RequestRow :=
  {| from_currency := from_currency row; to_currency := to_currency row;
     status := status row; created_at := created_at row; updated_at := t |}.

Definition CreateOrGetPendingQuoteRequest (from to : string) w
    : result QuoteRequest * World F :=
  let '(found, w) := GetPendingQuoteRequestByPair from to w in
  match found with
  | Ok existingRequest =>
    let '(t, w) := now env w in
    let '(failed, w) := send env (RefreshRequest t (ID existingRequest)) w in
    let w :=
      if failed then
        logErr WarnLevel "Failed to update existing request timestamp"
          driverError (Some (ID existingRequest)) w
      else
        set_requests
          (alter (refreshed t) (ID existingRequest) (quote_requests w)) w in
    (Ok existingRequest, w)
  | Err _ => CreateQuoteRequest from to w
  end.

Definition quoteIDs (qs : gmap (string * string) (QuoteRow F)) : list string :=
  (λ kr, quote_id kr.2) <$> map_to_list qs.

(** [INSERT ... ON CONFLICT (from_currency, to_currency) DO UPDATE SET
    rate = $4, updated_at = $6]: an existing row keeps its [id] and
    [created_at]; a new row needs an [id] no other row has. *)
Definition UpsertQuote (from to : string) (r : F) w : result unit * World F :=
  let '(t, w) := now env w in
  let '(id, w) := generateID w in
  let '(failed, w) := send env (UpsertQuoteStmt id from to r t t) w in
  if failed then (Err (ErrWrap "failed to upsert quote" driverError), w)
  else
    match quotes w !! (from, to) with
    | Some row =>
      let row' := {| quote_id := quote_id row; rate := r;
                     quote_created_at := quote_created_at row;
                     quote_updated_at := t |} in
      (Ok (), set_quotes (<[(from, to) := row']> (quotes w)) w)
    | None =>
      if decide (id ∈ quoteIDs (quotes w)) then
        (Err (ErrWrap "failed to upsert quote" (uniqueViolation "quotes_pkey")), w)
      else
        let row' := {| quote_id := id; rate := r; quote_created_at := t;
                       quote_updated_at := t |} in
        (Ok (), set_quotes (<[(from, to) := row']> (quotes w)) w)
    end.

Definition GetQuote (from to : string) w : result (Quote F) * World F :=
  let '(failed, w) := send env (SelectQuote from to) w in
  if failed then (Err (ErrWrap "failed to get quote" driverError), w)
  else
    match quotes w !! (from, to) with
    | None => (Err (ErrMsg "quote not found"), w)
    | Some row => (Ok (mkQuote from to row), w)
    end.

(** [ORDER BY created_at ASC] *)
Definition createdBefore (a b : QuoteRequest) : Prop :=
  (CreatedAt a ≤ CreatedAt b)%Z.

#[export] Instance createdBefore_dec a b : Decision (createdBefore a b).
Proof. unfold createdBefore. apply _. Defined.

Definition pendingRequests rs : list QuoteRequest :=
  merge_sort createdBefore
    ((λ ir, mkRequest ir.1 ir.2) <$>
       filter (λ ir, status ir.2 = "pending") (map_to_list rs)).

Definition GetPendingQuoteRequests w : result (list QuoteRequest) * World F :=
  let '(failed, w) := send env SelectPending w in
  if failed then
    (Err (ErrWrap "failed to get pending quote requests" driverError), w)
  else (Ok (pendingRequests (quote_requests w)), w).

End database.

End Database.

(** ** package external *)

Module External.

(** A Go call either returns or panics. *)
Inductive Fetch (F : Type) : Type :=
| Returns (r : result (gmap string F))
| Panics (msg : string).
Arguments Returns {F} r.
Arguments Panics {F} msg.

Section external.
Context {F : Type} `{RateNum F} (env : Env F).
Implicit Types (w : World F).

(** The symbols of the query string: the requested codes without
    duplicates and without "USD" (the order, that of a Go map, only
    reaches the URL). *)
Definition symbolsOf (currencies : list string) : list string :=
  elements (list_to_set (filter (λ currency, currency ≠ "USD") currencies)
              : gset string).

Definition GetMultipleExchangeRates (currencies : list string) w
    : Fetch F * World F :=
  if decide (length currencies = 0) then (Returns (Ok ∅), w)
  else
    let symbols := symbolsOf currencies in
    let '(reply, w) := roundTrip env symbols w in
    match reply with
    | NewRequestFails e =>
      (Returns (Err (ErrWrap "failed to create request" e)), w)
    | DoFails e =>
      (Returns (Err (ErrWrap "failed to make request" e)), w)
    | Response statusCode body =>
      if decide (statusCode ≠ 200%Z) then
        (Returns (Err (ErrMsg ("API returned status " +:+ pretty statusCode))), w)
      else
        match body with
        | ReadFails e =>
          (Returns (Err (ErrWrap "failed to read response body" e)), w)
        | UnmarshalFails e =>
          let w := logMsg DebugLevel "External API batch response" w in
          (Returns (Err (ErrWrap "failed to unmarshal response" e)), w)
        | Decoded apiResp =>
          let w := logMsg DebugLevel "External API batch response" w in
          if negb (Success apiResp) then
            (Returns (Err (ErrMsg "API returned success=false")), w)
          else
            (* apiResp.Rates["USD"] = 1.0 *)
            match Rates apiResp with
            | None => (Panics "assignment to entry in nil map", w)
            | Some rates =>
              let rates := <["USD" := rate_one]> rates in
              let w := logMsg InfoLevel
                         "Successfully retrieved batch exchange rates" w in
              (Returns (Ok rates), w)
            end
        end
    end.

End external.

End External.

(** ** package worker *)

Module Worker.
Import Utils Database External.

Inductive Outcome (F : Type) : Type :=
| Finished (w : World F)
| Panicked (msg : string) (w : World F).
Arguments Finished {F} w.
Arguments Panicked {F} msg w.

Definition worldOf {F} (o : Outcome F) : World F :=
  match o with Finished w => w | Panicked _ w => w end.

Section worker.
Context {F : Type} `{RateNum F} (env : Env F).
Implicit Types (w : World F) (requests : list QuoteRequest).

Definition extractUniqueCurrencies requests : list string :=
  elements (foldl (λ (currencies : gset string) req,
                     {[To req]} ∪ ({[From req]} ∪ currencies)) ∅ requests).

(** The loop the worker runs five times over:
    [for _, req := range requests { if err := w.db.UpdateQuoteRequestStatus(req.ID, st); err != nil { log } }];
    [updateStatus] is its body. *)
Definition updateStatus (st msg : string) w (req : QuoteRequest) : World F :=
  let '(r, w) := UpdateQuoteRequestStatus env (ID req) st w in
  match r with
  | Err updateErr => logErr ErrorLevel msg updateErr (Some (ID req)) w
  | Ok _ => w
  end.

Definition updateStatuses (st msg : string) requests w : World F :=
  foldl (updateStatus st msg) w requests.

Definition failedMsg : string := "Failed to update request status to failed".

Definition markAllRequestsAsFailed requests (err : error) w : World F :=
  updateStatuses "failed" failedMsg requests w.

Definition processCurrencyPairWithRates (pair : string) requests
    (usdRates : gmap string F) w : Outcome F :=
  let w := logMsg DebugLevel
             "Processing currency pair requests with pre-fetched rates" w in
  let w := updateStatuses "processing"
             "Failed to update request status to processing" requests w in
  match requests with
  | [] => Panicked "index out of range [0] with length 0" w
  | first :: _ =>
    let from := From first in
    let to := To first in
    match CalculateExchangeRate from to usdRates with
    | Err err =>
      let w := logErr ErrorLevel "Failed to calculate exchange rate" err None w in
      Finished (updateStatuses "failed" failedMsg requests w)
    | Ok r =>
      let '(saved, w) := UpsertQuote env from to r w in
      match saved with
      | Err err =>
        let w := logErr ErrorLevel "Failed to save quote to database" err None w in
        Finished (updateStatuses "failed" failedMsg requests w)
      | Ok _ =>
        let w := updateStatuses "completed"
                   "Failed to update request status to completed" requests w in
        Finished (logMsg InfoLevel
          "Successfully processed currency pair requests with batch rates" w)
      end
    end
  end.

Definition pairKey (req : QuoteRequest) : string := From req +:+ "/" +:+ To req.

(** [currencyPairMap[pair] = append(currencyPairMap[pair], req)] *)
Definition groupByPair requests : gmap string (list QuoteRequest) :=
  foldl (λ currencyPairMap req,
           <[pairKey req := default [] (currencyPairMap !! pairKey req) ++ [req]]>
             currencyPairMap) ∅ requests.

(** The entries of the map in the order the [range] visits them. *)
Definition visitedBefore (n : nat) (a b : string * list QuoteRequest) : Prop :=
  rangePriority env n a.1 ≤ rangePriority env n b.1.

#[export] Instance visitedBefore_dec n a b : Decision (visitedBefore n a b).
Proof. unfold visitedBefore. apply _. Defined.

Definition rangeOrder (n : nat) (m : gmap string (list QuoteRequest))
    : list (string * list QuoteRequest) :=
  merge_sort (visitedBefore n) (map_to_list m).

Fixpoint rangePairs (groups : list (string * list QuoteRequest))
    (usdRates : gmap string F) w : Outcome F :=
  match groups with
  | [] => Finished w
  | (key, reqs) :: rest =>
    match processCurrencyPairWithRates key reqs usdRates w with
    | Finished w => rangePairs rest usdRates w
    | Panicked msg w => Panicked msg w
    end
  end.

Definition processPendingRequests w : Outcome F :=
  let w := logMsg DebugLevel "Processing pending quote requests" w in
  let '(found, w) := GetPendingQuoteRequests env w in
  match found with
  | Err err =>
    Finished (logErr ErrorLevel "Failed to get pending quote requests" err None w)
  | Ok requests =>
    if decide (length requests = 0) then
      Finished (logMsg DebugLevel "No pending quote requests found" w)
    else
      let w := logMsg InfoLevel "Found pending quote requests" w in
      let currencies := extractUniqueCurrencies requests in
      let '(fetched, w) := GetMultipleExchangeRates env currencies w in
      match fetched with
      | Panics msg => Panicked msg w
      | Returns (Err err) =>
        let w := logErr ErrorLevel "Failed to get batch exchange rates" err None w in
        Finished (markAllRequestsAsFailed requests err w)
      | Returns (Ok usdRates) =>
        let currencyPairMap := groupByPair requests in
        rangePairs (rangeOrder (calls w) currencyPairMap) usdRates w
      end
  end.

(** Cycles one after the other, as the ticker loop of [Start] runs them;
    a panic ends the process. *)
Fixpoint runCycles (n : nat) w : Outcome F :=
  match n with
  | 0 => Finished w
  | S n =>
    match processPendingRequests w with
    | Finished w => runCycles n w
    | Panicked msg w => Panicked msg w
    end
  end.

End worker.

End Worker.
(** ** package handlers *)

(** The HTTP handlers over the store. The handler is given what the router
    and the decoders of the request hand it (the decoded body, the path
    variables, the query) and the world; it returns the calls it makes on
    its [http.ResponseWriter], in order, and the world it leaves. The
    handlers log to the logger of the store. *)

Module Handlers.
Import Database.

(** The payloads of the API ([models]). *)
Record UpdateQuoteRequest : Type := {
  UpdateFrom : string;
  UpdateTo : string
}.

Record UpdateQuoteResponse : Type := {
  ResponseID : string;
  ResponseFrom : string;
  ResponseTo : string;
  ResponseStatus : string
}.

Record QuoteResponse (F : Type) : Type := {
  QuoteResponseID : string;
  QuoteResponseFrom : string;
  QuoteResponseTo : string;
  QuoteResponseRate : F;
  QuoteResponseUpdatedAt : Z
}.
Arguments QuoteResponseID {F} _.
Arguments QuoteResponseFrom {F} _.
Arguments QuoteResponseTo {F} _.
Arguments QuoteResponseRate {F} _.
Arguments QuoteResponseUpdatedAt {F} _.

Record ErrorResponse : Type := {
  Error : string;
  Message : string
}.

(** The [data interface{}] that [writeJSONResponse] is called with. *)
Inductive Payload (F : Type) : Type :=
| ErrorData (response : ErrorResponse)
| UpdateData (response : UpdateQuoteResponse)
| QuoteData (response : QuoteResponse F)
| MapData (response : gmap string string).
Arguments ErrorData {F}.
Arguments UpdateData {F}.
Arguments QuoteData {F}.
Arguments MapData {F}.

(** The calls on the [http.ResponseWriter]: [w.Header().Set(key, value)],
    [w.WriteHeader(statusCode)], [json.NewEncoder(w).Encode(data)] with the
    error it returns, and [http.Error(w, msg, code)]. *)
Inductive WriterCall (F : Type) : Type :=
| HeaderSet (key value : string)
| WriteHeader (statusCode : Z)
| Encode (data : Payload F) (err : option error)
| HttpError (msg : string) (code : Z).
Arguments HeaderSet {F}.
Arguments WriteHeader {F}.
Arguments Encode {F}.
Arguments HttpError {F}.

(** What the handlers take from the Go libraries: [strings.TrimSpace],
    [strings.ToUpper], and the error, if any, that the JSON encoder
    returns for a payload on this response writer. *)
Record Lib (F : Type) : Type := {
  TrimSpace : string → string;
  ToUpper : string → string;
  encodeFails : Payload F → option error
}.
Arguments TrimSpace {F} _ _.
Arguments ToUpper {F} _ _.
Arguments encodeFails {F} _ _.

Record Handler : Type := {
  supportedCurrencies : list string
}.

(** What [json.NewDecoder(r.Body).Decode(&req)] comes to. *)
Inductive Body : Type :=
| DecodeFails (err : error)
| Decodes (req : UpdateQuoteRequest).

(** [err.Error()] *)
Fixpoint errorText (err : error) : string :=
  match err with
  | ErrMsg msg => msg
  | ErrWrap msg inner => msg +:+ ": " +:+ errorText inner
  end.

(** [%v] of a [[]string]. *)
Definition sprintSlice (l : list string) : string :=
  "[" +:+ String.concat " " l +:+ "]".

(** [fmt.Sprintf("Currency '%s' is not supported. Supported currencies: %v",
    currency, supported)] *)
Definition notSupported (currency : string) (supported : list string) : string :=
  "Currency '" +:+ currency +:+ "' is not supported. Supported currencies: "
  +:+ sprintSlice supported.

(** [url.Values.Get]: the first value of the key, or the empty string. *)
Definition queryGet (query : gmap string (list string)) (key : string) : string :=
  match query !! key with
  | Some (value :: _) => value
  | _ => ""
  end.

Section handlers.
Context {F : Type} (env : Env F) (lib : Lib F) (h : Handler).
Implicit Types (w : World F).

Definition writeJSONResponse (statusCode : Z) (data : Payload F) w
    : list (WriterCall F) * World F :=
  let err := encodeFails lib data in
  let sent := [HeaderSet "Content-Type" "application/json";
               WriteHeader statusCode; Encode data err] in
  match err with
  | Some e =>
    let w := logErr ErrorLevel "Failed to encode JSON response" e None w in
    (sent ++ [HttpError "Internal Server Error" 500], w)
  | None => (sent, w)
  end.

Definition writeErrorResponse (statusCode : Z) (error message : string) w
    : list (WriterCall F) * World F :=
  let response := {| Error := error; Message := message |} in
  writeJSONResponse statusCode (ErrorData response) w.

Definition UpdateQuote (body : Body) w : list (WriterCall F) * World F :=
  match body with
  | DecodeFails err =>
    writeErrorResponse 400 "Invalid JSON" (errorText err) w
  | Decodes req =>
    if decide (TrimSpace lib (UpdateFrom req) = "") then
      writeErrorResponse 400 "Validation error" "From currency is required" w
    else if decide (TrimSpace lib (UpdateTo req) = "") then
      writeErrorResponse 400 "Validation error" "To currency is required" w
    else
      let from := ToUpper lib (TrimSpace lib (UpdateFrom req)) in
      let to := ToUpper lib (TrimSpace lib (UpdateTo req)) in
      if decide (from = to) then
        writeErrorResponse 400 "Validation error"
          "From and To currencies must be different" w
      else if negb (IsSupportedCurrencyFromList from (supportedCurrencies h)) then
        writeErrorResponse 400 "Validation error"
          (notSupported from (supportedCurrencies h)) w
      else if negb (IsSupportedCurrencyFromList to (supportedCurrencies h)) then
        writeErrorResponse 400 "Validation error"
          (notSupported to (supportedCurrencies h)) w
      else
        let '(created, w) := CreateOrGetPendingQuoteRequest env from to w in
        match created with
        | Err err =>
          let w := logErr ErrorLevel "Failed to create or get quote request"
                     err None w in
          writeErrorResponse 500 "Internal error"
            "Failed to create quote request" w
        | Ok quoteRequest =>
          let response := {| ResponseID := ID quoteRequest;
                             ResponseFrom := From quoteRequest;
                             ResponseTo := To quoteRequest;
                             ResponseStatus := Status quoteRequest |} in
          let w := logEntry {| level := InfoLevel;
                               message := "Quote update request created or retrieved";
                               log_error := None;
                               log_request_id := Some (ID quoteRequest) |} w in
          writeJSONResponse 200 (UpdateData response) w
        end
  end.

Definition quoteResponse (quote : Quote F) : QuoteResponse F :=
  {| QuoteResponseID := QuoteID quote; QuoteResponseFrom := QuoteFrom quote;
     QuoteResponseTo := QuoteTo quote; QuoteResponseRate := Rate quote;
     QuoteResponseUpdatedAt := QuoteUpdatedAt quote |}.

(** [vars] is [mux.Vars(r)]; a variable that is not set reads as "". *)
Definition GetQuoteByID (vars : gmap string string) w
    : list (WriterCall F) * World F :=
  let requestID := default "" (vars !! "id") in
  if decide (TrimSpace lib requestID = "") then
    writeErrorResponse 400 "Validation error" "Request ID is required" w
  else
    let '(found, w) := GetQuoteRequest env requestID w in
    match found with
    | Err err =>
      let w := logErr ErrorLevel "Failed to get quote request" err
                 (Some requestID) w in
      writeErrorResponse 404 "Not found" "Quote request not found" w
    | Ok quoteRequest =>
      if decide (Status quoteRequest ≠ "completed") then
        writeErrorResponse 400 "Request not completed"
          ("Quote request is not completed yet. Status: "
           +:+ Status quoteRequest) w
      else
        let '(got, w) := GetQuote env (From quoteRequest) (To quoteRequest) w in
        match got with
        | Err err =>
          let w := logErr ErrorLevel "Failed to get quote" err
                     (Some requestID) w in
          writeErrorResponse 500 "Internal error" "Failed to get quote" w
        | Ok quote =>
          let response := quoteResponse quote in
          let w := logEntry {| level := InfoLevel;
                               message := "Quote retrieved by ID";
                               log_error := None;
                               log_request_id := Some requestID |} w in
          writeJSONResponse 200 (QuoteData response) w
        end
    end.

(** [query] is [r.URL.Query()]. *)
Definition GetLatestQuote (query : gmap string (list string)) w
    : list (WriterCall F) * World F :=
  let from := queryGet query "from" in
  let to := queryGet query "to" in
  if decide (TrimSpace lib from = "") then
    writeErrorResponse 400 "Validation error" "From currency is required" w
  else if decide (TrimSpace lib to = "") then
    writeErrorResponse 400 "Validation error" "To currency is required" w
  else
    let from := ToUpper lib (TrimSpace lib from) in
    let to := ToUpper lib (TrimSpace lib to) in
    if negb (IsSupportedCurrencyFromList from (supportedCurrencies h)) then
      writeErrorResponse 400 "Validation error"
        (notSupported from (supportedCurrencies h)) w
    else if negb (IsSupportedCurrencyFromList to (supportedCurrencies h)) then
      writeErrorResponse 400 "Validation error"
        (notSupported to (supportedCurrencies h)) w
    else
      let '(got, w) := GetQuote env from to w in
      match got with
      | Err err =>
        let w := logErr ErrorLevel "Failed to get latest quote" err None w in
        writeErrorResponse 404 "Not found"
          ("Quote not found for currency pair: " +:+ from +:+ "/" +:+ to) w
      | Ok quote =>
        let response := quoteResponse quote in
        let w := logMsg InfoLevel "Latest quote retrieved" w in
        writeJSONResponse 200 (QuoteData response) w
      end.

Definition Health w : list (WriterCall F) * World F :=
  let response : gmap string string :=
    <["status" := "healthy"]>
      (<["service" := "currency-quote-service"]>
         (<["timestamp" := "2025-09-28T04:32:27Z"]> ∅)) in
  writeJSONResponse 200 (MapData response) w.

End handlers.

End Handlers.

(** * Vocabulary of the specification *)

Import Utils Database External Worker.

(** The dedup invariant: no two pending rows for one (from, to) pair. *)
Definition pendingUnique (rs : gmap string RequestRow) : Prop :=
  ∀ id1 id2 row1 row2,
    rs !! id1 = Some row1 → rs !! id2 = Some row2 →
    status row1 = "pending" → status row2 = "pending" →
    from_currency row1 = from_currency row2 →
    to_currency row1 = to_currency row2 →
    id1 = id2.

(** A row that differs from [row] by its status and [updated_at] only. *)
Definition restatused (st : string) (row row' : RequestRow) : Prop :=
  from_currency row' = from_currency row ∧ to_currency row' = to_currency row ∧
  created_at row' = created_at row ∧ status row' = st.

(** The row [CreateQuoteRequest] inserts and the id it generates, and the
    row [UpdateQuoteRequestStatus] writes over [row], in the world [w]. *)
Definition newRow {F} (env : Env F) (from to : string) (w : World F) : RequestRow :=
  {| from_currency := from; to_currency := to; status := "pending";
     created_at := clock env (ticks w); updated_at := clock env (ticks w) |}.

Definition newID {F} (env : Env F) (w : World F) : string :=
  pretty (clock env (S (ticks w))).

Definition statusRow {F} (env : Env F) (st : string) (row : RequestRow)
    (w : World F) : RequestRow :=
  {| from_currency := from_currency row; to_currency := to_currency row;
     status := st; created_at := created_at row;
     updated_at := clock env (ticks w) |}.

(** The operations of the store, as a client or the worker issues them. *)
Inductive StoreOp (F : Type) : Type :=
| OpCreateQuoteRequest (from to : string)
| OpCreateOrGetPendingQuoteRequest (from to : string)
| OpUpdateQuoteRequestStatus (id st : string)
| OpGetQuoteRequest (id : string)
| OpGetPendingQuoteRequestByPair (from to : string)
| OpGetPendingQuoteRequests
| OpUpsertQuote (from to : string) (r : F)
| OpGetQuote (from to : string).
Arguments OpCreateQuoteRequest {F}.
Arguments OpCreateOrGetPendingQuoteRequest {F}.
Arguments OpUpdateQuoteRequestStatus {F}.
Arguments OpGetQuoteRequest {F}.
Arguments OpGetPendingQuoteRequestByPair {F}.
Arguments OpGetPendingQuoteRequests {F}.
Arguments OpUpsertQuote {F}.
Arguments OpGetQuote {F}.

Definition runOp {F} (env : Env F) (w : World F) (op : StoreOp F) : World F :=
  match op with
  | OpCreateQuoteRequest from to => (CreateQuoteRequest env from to w).2
  | OpCreateOrGetPendingQuoteRequest from to =>
    (CreateOrGetPendingQuoteRequest env from to w).2
  | OpUpdateQuoteRequestStatus id st => (UpdateQuoteRequestStatus env id st w).2
  | OpGetQuoteRequest id => (GetQuoteRequest env id w).2
  | OpGetPendingQuoteRequestByPair from to =>
    (GetPendingQuoteRequestByPair env from to w).2
  | OpGetPendingQuoteRequests => (GetPendingQuoteRequests env w).2
  | OpUpsertQuote from to r => (UpsertQuote env from to r w).2
  | OpGetQuote from to => (GetQuote env from to w).2
  end.

(** The store after a history of operations on the empty database. *)
Definition runOps {F} (env : Env F) (ops : list (StoreOp F)) : World F :=
  foldl (runOp env) emptyWorld ops.




(** The place of the entry of [key] in the list [l]: the ranking under
    which a [range] visits the entries in the order [l]. *)
Definition rankIn (l : list (string * list QuoteRequest)) (key : string) : nat :=
  match list_find (λ kg, kg.1 = key) l with
  | Some (i, _) => i
  | None => 0
  end.





(** The fetch succeeds with the rates [rates]: HTTP 200, a payload that
    parses, the success flag set. *)
Definition fetchSucceeded {F} (reply : HttpOutcome F)
    (rates : option (gmap string F)) : Prop :=
  ∃ apiResp, reply = Response 200 (Decoded apiResp) ∧
             Success apiResp = true ∧ Rates apiResp = rates.

(** * Concrete situations *)

(** The rates of the specification's scenarios, without "USD". *)
Definition sampleRates : gmap string Qc :=
  <["EUR" := Q2Qc (85 # 100)]> (<["MXN" := Q2Qc (185 # 10)]> ∅).

Definition sampleReply : HttpOutcome Qc :=
  Response 200 (Decoded {| Success := true; Rates := Some sampleRates;
                           Date := "2025-09-28" |}).

(** A database that answers every statement, a clock that advances by one
    nanosecond per reading, a rate provider that answers [sampleReply]. *)
Definition quietEnv : Env Qc :=
  {| clock := λ n, (1000 + Z.of_nat n)%Z;
     dbFails := λ _ _, false;
     http := λ _ _, sampleReply;
     rangePriority := λ _ _, 0 |}.

(** One pending request for EUR/MXN. *)
Definition oneRequest : World Qc :=
  runOps quietEnv [OpCreateOrGetPendingQuoteRequest "EUR" "MXN"].

Definition oneRequestRow : RequestRow :=
  {| from_currency := "EUR"; to_currency := "MXN"; status := "pending";
     created_at := 1000; updated_at := 1000 |}.


(** A rate provider that answers HTTP 200 with the body [{"success": true}]:
    the payload parses, the flag is set, and the [rates] map stays nil. *)
Definition noRatesReply : HttpOutcome Qc :=
  Response 200 (Decoded {| Success := true; Rates := None; Date := "" |}).

Definition noRatesEnv : Env Qc :=
  {| clock := clock quietEnv; dbFails := dbFails quietEnv;
     http := λ _ _, noRatesReply; rangePriority := rangePriority quietEnv |}.




(** Pending requests for EUR/MXN, USD/EUR and EUR/CAD (no rate for CAD in
    [sampleRates]). *)
Definition threeRequests : World Qc :=
  runOps quietEnv [OpCreateOrGetPendingQuoteRequest "EUR" "MXN";
                   OpCreateOrGetPendingQuoteRequest "USD" "EUR";
                   OpCreateOrGetPendingQuoteRequest "EUR" "CAD"].

(** The world after one cycle over [threeRequests]. *)
Definition afterOneCycle : World Qc :=
  worldOf (processPendingRequests quietEnv threeRequests).

Definition completedRow : RequestRow :=
  {| from_currency := "EUR"; to_currency := "MXN"; status := "completed";
     created_at := 1000; updated_at := 1009 |}.

Definition usdEurRow : RequestRow :=
  {| from_currency := "USD"; to_currency := "EUR"; status := "pending";
     created_at := 1002; updated_at := 1002 |}.

Definition eurCadRow : RequestRow :=
  {| from_currency := "EUR"; to_currency := "CAD"; status := "pending";
     created_at := 1004; updated_at := 1004 |}.

(** * Vocabulary of the further properties *)

(** A table in which "USD", when it is listed, is at 1 (every table that
    [GetMultipleExchangeRates] fetches is one), and a table of positive
    rates. *)
Definition usdAtOne (usdRates : gmap string Qc) : Prop :=
  ∀ r, usdRates !! "USD" = Some r → r = 1%Qc.

Definition positiveRates (usdRates : gmap string Qc) : Prop :=
  ∀ c r, usdRates !! c = Some r → (0 < r)%Qc.

(** The statuses the worker writes, and what a cycle may do to a row of
    [quote_requests]: change its status to one of these, and its update
    time. *)
Definition workerStatuses : list string := ["processing"; "completed"; "failed"].

Definition touched (row row' : RequestRow) : Prop :=
  from_currency row' = from_currency row ∧ to_currency row' = to_currency row ∧
  created_at row' = created_at row ∧
  (status row' = status row ∨ status row' ∈ workerStatuses).

(** A quote keeps what identifies it. *)
Definition sameQuote {F} (q q' : QuoteRow F) : Prop :=
  quote_id q' = quote_id q ∧ quote_created_at q' = quote_created_at q.

(** ** The handlers *)

Import Handlers.

(** The status line of a response is the code of the first [WriteHeader]
    (net/http ignores the later ones); its body is the payload handed to
    the JSON encoder. *)
Definition statusCode {F} (resp : list (WriterCall F)) : option Z :=
  head (omap (λ call, match call with
                      | WriteHeader code => Some code
                      | _ => None
                      end) resp).

Definition encoded {F} (resp : list (WriterCall F)) : option (Payload F) :=
  head (omap (λ call, match call with
                      | Encode data _ => Some data
                      | _ => None
                      end) resp).

(** A response leaves the world as it is but for the log. *)
Definition sameStore {F} (w w' : World F) : Prop :=
  quote_requests w' = quote_requests w ∧ quotes w' = quotes w ∧
  ticks w' = ticks w ∧ calls w' = calls w ∧ fetches w' = fetches w.

(** The codes a handler validates: the trimmed, upper-cased input. *)
Definition normalized {F} (lib : Lib F) (s : string) : string :=
  ToUpper lib (TrimSpace lib s).

(** The library functions on ASCII strings: the white space of
    [strings.TrimSpace] is then the characters tab, line feed, vertical
    tab, form feed, carriage return and space, and [strings.ToUpper] maps
    the letters a-z. The encoder never fails. *)
Definition asciiSpace (c : ascii) : bool :=
  bool_decide (c ∈ [" "; "009"; "010"; "011"; "012"; "013"]%char).

Fixpoint trimLeft (s : string) : string :=
  match s with
  | String c s' => if asciiSpace c then trimLeft s' else s
  | EmptyString => EmptyString
  end.

Definition asciiTrimSpace (s : string) : string :=
  String.rev (trimLeft (String.rev (trimLeft s))).

Definition asciiUpper (c : ascii) : ascii :=
  let n := nat_of_ascii c in
  if (97 <=? n) && (n <=? 122) then ascii_of_nat (n - 32) else c.

Fixpoint asciiToUpper (s : string) : string :=
  match s with
  | String c s' => String (asciiUpper c) (asciiToUpper s')
  | EmptyString => EmptyString
  end.

Definition asciiLib : Lib Qc :=
  {| TrimSpace := asciiTrimSpace; ToUpper := asciiToUpper;
     encodeFails := λ _, None |}.

(** The handler of the default configuration. *)
Definition defaultHandler : Handler :=
  {| supportedCurrencies := SupportedCurrencies |}.

(** The body [{"from": " eur ", "to": "mxn"}]. *)
Definition eurMxnBody : Body :=
  Decodes {| UpdateFrom := " eur "; UpdateTo := "mxn" |}.

(** * Properties *)

(** ** Rate arithmetic *)

Module RateArithmetic.
Import Utils.

Section generic.
Context {F : Type} `{RateNum F}.

Lemma CalculateExchangeRate_from_missing from to usdRates :
  usdRates !! from = None → is_ok (CalculateExchangeRate from to usdRates) = false.
Proof. intros Hf. unfold CalculateExchangeRate. by rewrite Hf. Qed.

Lemma CalculateExchangeRate_to_missing from to usdRates :
  usdRates !! to = None → is_ok (CalculateExchangeRate from to usdRates) = false.
Proof.
  intros Ht. unfold CalculateExchangeRate.
  destruct (usdRates !! from); [by rewrite Ht | done].
Qed.

Lemma CalculateExchangeRate_ok_iff from to usdRates :
  is_ok (CalculateExchangeRate from to usdRates) = true ↔
  is_Some (usdRates !! from) ∧ is_Some (usdRates !! to).
Proof.
  unfold CalculateExchangeRate.
  destruct (usdRates !! from) as [ra|], (usdRates !! to) as [rb|]; simpl;
    split; try done; intros [[? ?] [? ?]]; done.
Qed.

(** C1. For every rate table and every pair of codes [from], [to] present
    in it with rates [ra] and [rb], [CalculateExchangeRate] succeeds and
    returns [rb] when [from] is "USD", [1/ra] when [to] is "USD" (the
    branch the code reaches when [from] is not), and [rb/ra] when neither
    is "USD". The statement holds for any arithmetic, binary64 included. *)
Theorem CalculateExchangeRate_cases from to usdRates ra rb :
  usdRates !! from = Some ra →
  usdRates !! to = Some rb →
  (from = "USD" → CalculateExchangeRate from to usdRates = Ok rb) ∧
  (from ≠ "USD" → to = "USD" →
     CalculateExchangeRate from to usdRates = Ok (rate_div rate_one ra)) ∧
  (from ≠ "USD" → to ≠ "USD" →
     CalculateExchangeRate from to usdRates = Ok (rate_div rb ra)).
Proof.
  intros Hf Ht. unfold CalculateExchangeRate. rewrite Hf, Ht.
  repeat split; intros; repeat case_decide; congruence.
Qed.
End generic.

Example CalculateExchangeRate_EUR_MXN_float :
  CalculateExchangeRate "EUR" "MXN" testRates_float = Ok (18.5 / 0.85)%float.
Proof. reflexivity. Qed.

Example CalculateExchangeRate_EUR_EUR_float :
  CalculateExchangeRate "EUR" "EUR" testRates_float = Ok 1%float.
Proof. vm_compute. reflexivity. Qed.

Example CalculateExchangeRate_CAD_float :
  is_ok (CalculateExchangeRate "CAD" "USD" testRates_float) = false.
Proof. reflexivity. Qed.

Lemma CalculateExchangeRate_cases_witness :
  testRates !! "EUR" = Some (Q2Qc (85 # 100)) ∧
  testRates !! "MXN" = Some (Q2Qc (185 # 10)) ∧
  CalculateExchangeRate "EUR" "MXN" testRates =
    Ok (rate_div (Q2Qc (185 # 10)) (Q2Qc (85 # 100))).
Proof.
  assert (Hf : testRates !! "EUR" = Some (Q2Qc (85 # 100))) by reflexivity.
  assert (Ht : testRates !! "MXN" = Some (Q2Qc (185 # 10))) by reflexivity.
  split; [exact Hf | split; [exact Ht |]].
  apply (proj2 (proj2
    (CalculateExchangeRate_cases "EUR" "MXN" testRates _ _ Hf Ht)));
    intros Heq; inversion Heq.
Defined.

(** *** Exact arithmetic: same-currency and round-trip laws *)

Lemma Qc_pos_nonzero (r : Qc) : (0 < r)%Qc → r ≠ 0%Qc.
Proof. intros Hlt Heq. by apply (Qclt_not_eq _ _ Hlt). Qed.



(** There is no [from == to] guard in the code: for "USD" the first branch
    answers with the table's own entry for "USD". *)
Lemma CalculateExchangeRate_USD_USD `{RateNum F} (usdRates : gmap string F) r :
  usdRates !! "USD" = Some r →
  CalculateExchangeRate "USD" "USD" usdRates = Ok r.
Proof. intros Hr. unfold CalculateExchangeRate. by rewrite Hr. Qed.


(** The same input in binary64. *)
Example CalculateExchangeRate_USD_USD_float :
  CalculateExchangeRate "USD" "USD" (<["USD" := 2%float]> ∅) = Ok 2%float.
Proof. reflexivity. Qed.






End RateArithmetic.

(** ** Request store *)

Module RequestStore.
Import Utils Database.

Lemma elem_of_pendingRows from to (rs : gmap string RequestRow) id row :
  (id, row) ∈ pendingRows from to rs ↔
  rs !! id = Some row ∧ isPendingFor from to row.
Proof.
  unfold pendingRows. rewrite list_elem_of_filter, elem_of_map_to_list. simpl.
  tauto.
Qed.

Lemma pendingRows_nil from to (rs : gmap string RequestRow) :
  pendingRows from to rs = [] ↔
  ∀ id row, rs !! id = Some row → ¬ isPendingFor from to row.
Proof.
  split.
  - intros Hnil id row Hl Hp.
    assert (Hin : (id, row) ∈ pendingRows from to rs)
      by (apply elem_of_pendingRows; done).
    rewrite Hnil in Hin. by apply not_elem_of_nil in Hin.
  - intros Hno. destruct (pendingRows from to rs) as [|[id row] l] eqn:Heq; [done|].
    assert (Hin : (id, row) ∈ pendingRows from to rs)
      by (rewrite Heq; left).
    apply elem_of_pendingRows in Hin as [Hl Hp]. by destruct (Hno id row Hl).
Qed.

Lemma pendingUnique_empty : pendingUnique ∅.
Proof. intros id1 id2 row1 row2 Hl. by rewrite lookup_empty in Hl. Qed.

(** Under the invariant the pending row of a pair is the one [QueryRow]
    scans. *)
Lemma head_pendingRows from to (rs : gmap string RequestRow) id row :
  pendingUnique rs →
  rs !! id = Some row → isPendingFor from to row →
  head (pendingRows from to rs) = Some (id, row).
Proof.
  intros Huniq Hl Hp.
  destruct (pendingRows from to rs) as [|[id' row'] l] eqn:Heq.
  - pose proof (proj1 (pendingRows_nil _ _ _) Heq) as Hno.
    by destruct (Hno id row Hl).
  - simpl. assert (Hin : (id', row') ∈ pendingRows from to rs)
      by (rewrite Heq; left).
    apply elem_of_pendingRows in Hin as [Hl' Hp'].
    destruct Hp as (Hf & Ht & Hs), Hp' as (Hf' & Ht' & Hs').
    assert (id' = id) as -> by (apply (Huniq id' id row' row); congruence).
    congruence.
Qed.

Lemma pendingUnique_insert_fresh (rs : gmap string RequestRow) id row :
  pendingUnique rs →
  pendingRows (from_currency row) (to_currency row) rs = [] →
  pendingUnique (<[id := row]> rs).
Proof.
  intros Huniq Hnil id1 id2 row1 row2 Hl1 Hl2 Hs1 Hs2 Hf Ht.
  rewrite pendingRows_nil in Hnil.
  rewrite lookup_insert_Some in Hl1, Hl2.
  destruct Hl1 as [[-> <-]|[Hne1 Hl1]], Hl2 as [[-> <-]|[Hne2 Hl2]]; try done.
  - destruct (Hnil id2 row2 Hl2). unfold isPendingFor. auto.
  - destruct (Hnil id1 row1 Hl1). unfold isPendingFor. auto.
  - eauto.
Qed.

Lemma pendingUnique_insert_other (rs : gmap string RequestRow) id row row' :
  pendingUnique rs →
  rs !! id = Some row →
  from_currency row' = from_currency row → to_currency row' = to_currency row →
  status row' ≠ "pending" ∨ otherPending id row rs = [] →
  pendingUnique (<[id := row']> rs).
Proof.
  intros Huniq Hrow Hf' Ht' Hok id1 id2 row1 row2 Hl1 Hl2 Hs1 Hs2 Hf Ht.
  assert (Hclash : ∀ j rj, j ≠ id → rs !! j = Some rj → status rj = "pending" →
            from_currency rj = from_currency row' →
            to_currency rj = to_currency row' → status row' = "pending" → False).
  { intros j rj Hj Hlj Hsj Hfj Htj Hsp. destruct Hok as [Hok|Hok]; [done|].
    assert (Hin : (j, rj) ∈ otherPending id row rs).
    { unfold otherPending. apply list_elem_of_filter. split; [done|].
      apply elem_of_pendingRows. unfold isPendingFor. split; [done|].
      repeat split; congruence. }
    rewrite Hok in Hin. by apply not_elem_of_nil in Hin. }
  rewrite lookup_insert_Some in Hl1, Hl2.
  destruct Hl1 as [[-> <-]|[Hne1 Hl1]], Hl2 as [[-> <-]|[Hne2 Hl2]]; try done.
  - destruct (Hclash id2 row2); auto.
  - destruct (Hclash id1 row1); auto.
  - eauto.
Qed.

Lemma pendingUnique_alter_updated_at (rs : gmap string RequestRow) id f :
  (∀ row, from_currency (f row) = from_currency row ∧
          to_currency (f row) = to_currency row ∧ status (f row) = status row) →
  pendingUnique rs → pendingUnique (alter f id rs).
Proof.
  intros Hf Huniq id1 id2 row1 row2 Hl1 Hl2 Hs1 Hs2 Hfr Hto.
  assert (Hback : ∀ j rj, alter f id rs !! j = Some rj →
            ∃ r0, rs !! j = Some r0 ∧ from_currency rj = from_currency r0 ∧
                  to_currency rj = to_currency r0 ∧ status rj = status r0).
  { intros j rj Hl. apply lookup_alter_Some in Hl.
    destruct Hl as [(-> & r0 & Hr0 & ->)|[_ Hl]].
    - destruct (Hf r0) as (? & ? & ?). eauto.
    - eauto. }
  destruct (Hback _ _ Hl1) as (r1 & Hr1 & ? & ? & ?).
  destruct (Hback _ _ Hl2) as (r2 & Hr2 & ? & ? & ?).
  apply (Huniq id1 id2 r1 r2); congruence.
Qed.

Section operations.
Context {F : Type} (env : Env F).
Implicit Types (w : World F).

Lemma CreateQuoteRequest_frame from to w :
  let res := CreateQuoteRequest env from to w in
  quotes res.2 = quotes w ∧ logs res.2 = logs w ∧ fetches res.2 = fetches w ∧
  ticks res.2 = S (S (ticks w)) ∧ calls res.2 = S (calls w).
Proof.
  unfold CreateQuoteRequest, generateID, now, send. simpl.
  destruct (dbFails _ _ _); [done|].
  repeat case_decide; done.
Qed.

Lemma CreateQuoteRequest_cases from to w :
  let res := CreateQuoteRequest env from to w in
  (is_ok res.1 = false ∧ quote_requests res.2 = quote_requests w) ∨
  (res.1 = Ok (mkRequest (newID env w) (newRow env from to w)) ∧
   quote_requests w !! newID env w = None ∧
   pendingRows from to (quote_requests w) = [] ∧
   quote_requests res.2 = <[newID env w := newRow env from to w]> (quote_requests w)).
Proof.
  unfold CreateQuoteRequest, generateID, now, send, newID, newRow. simpl.
  destruct (dbFails _ _ _); [by left|].
  case_decide as Hid; [by left|].
  case_decide as Hp; [|by left].
  right. split; [done|]. split; [|done].
  by apply eq_None_not_Some.
Qed.


Lemma UpdateQuoteRequestStatus_frame id st w :
  let res := UpdateQuoteRequestStatus env id st w in
  quotes res.2 = quotes w ∧ logs res.2 = logs w ∧ fetches res.2 = fetches w ∧
  ticks res.2 = S (ticks w) ∧ calls res.2 = S (calls w).
Proof.
  unfold UpdateQuoteRequestStatus, now, send. simpl.
  destruct (dbFails _ _ _); [done|].
  destruct (quote_requests w !! id); [|done].
  case_decide; done.
Qed.

Lemma UpdateQuoteRequestStatus_cases id st w :
  let res := UpdateQuoteRequestStatus env id st w in
  (is_ok res.1 = false ∧ quote_requests res.2 = quote_requests w) ∨
  (res.1 = Ok () ∧ quote_requests w !! id = None ∧
   quote_requests res.2 = quote_requests w) ∨
  (res.1 = Ok () ∧ ∃ row, quote_requests w !! id = Some row ∧
   (st ≠ "pending" ∨ otherPending id row (quote_requests w) = []) ∧
   quote_requests res.2 = <[id := statusRow env st row w]> (quote_requests w)).
Proof.
  unfold UpdateQuoteRequestStatus, now, send, statusRow. simpl.
  destruct (dbFails _ _ _); [by left|].
  destruct (quote_requests w !! id) as [row|] eqn:Hrow; [|by right; left].
  case_decide as Hd; [by left|].
  right; right. split; [done|]. exists row. split; [done|]. split; [|done].
  destruct (decide (st = "pending")) as [->|]; [|by left].
  right. destruct (otherPending id row (quote_requests w)); [done|].
  destruct Hd. done.
Qed.

Lemma UpdateQuoteRequestStatus_ok id st w row :
  dbFails env (calls w) (UpdateStatus st (clock env (ticks w)) id) = false →
  quote_requests w !! id = Some row →
  st ≠ "pending" ∨ otherPending id row (quote_requests w) = [] →
  (UpdateQuoteRequestStatus env id st w).1 = Ok () ∧
  quote_requests (UpdateQuoteRequestStatus env id st w).2
  = <[id := statusRow env st row w]> (quote_requests w).
Proof.
  intros Hdb Hrow Hok. unfold UpdateQuoteRequestStatus, now, send, statusRow.
  simpl. rewrite Hdb, Hrow. case_decide as Hd; [|done].
  destruct Hd as [-> Hne]. by destruct Hok.
Qed.

Lemma UpdateQuoteRequestStatus_other id st w id' :
  id' ≠ id →
  quote_requests (UpdateQuoteRequestStatus env id st w).2 !! id' =
  quote_requests w !! id'.
Proof.
  intros Hne.
  destruct (UpdateQuoteRequestStatus_cases id st w)
    as [[_ ->]|[(_ & _ & ->)|(_ & row & _ & _ & ->)]]; try done.
  by rewrite lookup_insert_ne.
Qed.

Lemma UpsertQuote_frame from to r w :
  let res := UpsertQuote env from to r w in
  quote_requests res.2 = quote_requests w ∧ logs res.2 = logs w ∧
  fetches res.2 = fetches w ∧
  ticks res.2 = S (S (ticks w)) ∧ calls res.2 = S (calls w).
Proof.
  unfold UpsertQuote, generateID, now, send. simpl.
  destruct (dbFails _ _ _); [done|].
  destruct (quotes w !! (from, to)); [done|].
  case_decide; done.
Qed.

Lemma GetPendingQuoteRequestByPair_frame from to w :
  let res := GetPendingQuoteRequestByPair env from to w in
  quote_requests res.2 = quote_requests w ∧ quotes res.2 = quotes w ∧
  logs res.2 = logs w ∧ fetches res.2 = fetches w ∧
  ticks res.2 = ticks w ∧ calls res.2 = S (calls w).
Proof.
  unfold GetPendingQuoteRequestByPair, send. simpl.
  destruct (dbFails _ _ _); [done|].
  destruct (head _) as [[??]|]; done.
Qed.

Lemma GetPendingQuoteRequestByPair_result from to w req :
  (GetPendingQuoteRequestByPair env from to w).1 = Ok req →
  ∃ id row, req = mkRequest id row ∧
    quote_requests w !! id = Some row ∧ isPendingFor from to row.
Proof.
  unfold GetPendingQuoteRequestByPair, send. simpl.
  destruct (dbFails _ _ _); [done|].
  destruct (head _) as [[id row]|] eqn:Hh; [|done].
  intros [= <-]. exists id, row. split; [done|].
  apply elem_of_pendingRows. by apply head_Some_elem_of.
Qed.

Lemma CreateQuoteRequest_pendingUnique from to w :
  pendingUnique (quote_requests w) →
  pendingUnique (quote_requests (CreateQuoteRequest env from to w).2).
Proof.
  intros Huniq.
  destruct (CreateQuoteRequest_cases from to w)
    as [[_ ->]|(_ & _ & Hnil & ->)]; [done|].
  by apply pendingUnique_insert_fresh.
Qed.

Lemma UpdateQuoteRequestStatus_pendingUnique id st w :
  pendingUnique (quote_requests w) →
  pendingUnique (quote_requests (UpdateQuoteRequestStatus env id st w).2).
Proof.
  intros Huniq.
  destruct (UpdateQuoteRequestStatus_cases id st w)
    as [[_ ->]|[(_ & _ & ->)|(_ & row & Hrow & Hok & ->)]]; try done.
  by apply (pendingUnique_insert_other _ id row).
Qed.

Lemma CreateOrGetPending_found from to w req w1 :
  GetPendingQuoteRequestByPair env from to w = (Ok req, w1) →
  let res := CreateOrGetPendingQuoteRequest env from to w in
  res.1 = Ok req ∧ quotes res.2 = quotes w ∧
  (quote_requests res.2 = quote_requests w ∨
   quote_requests res.2 =
     alter (refreshed (clock env (ticks w))) (ID req) (quote_requests w)).
Proof.
  intros Hget. unfold CreateOrGetPendingQuoteRequest. rewrite Hget.
  destruct (GetPendingQuoteRequestByPair_frame from to w)
    as (Hrs & Hqs & _ & _ & Htk & _).
  rewrite Hget in Hrs, Hqs, Htk. simpl in Hrs, Hqs, Htk.
  unfold now, send. simpl. rewrite Htk, Hrs.
  destruct (dbFails _ _ _); simpl; auto.
Qed.

Lemma CreateOrGetPending_not_found from to w e w1 :
  GetPendingQuoteRequestByPair env from to w = (Err e, w1) →
  CreateOrGetPendingQuoteRequest env from to w = CreateQuoteRequest env from to w1.
Proof. intros Hget. unfold CreateOrGetPendingQuoteRequest. by rewrite Hget. Qed.

Lemma CreateOrGetPending_pendingUnique from to w :
  pendingUnique (quote_requests w) →
  pendingUnique (quote_requests (CreateOrGetPendingQuoteRequest env from to w).2).
Proof.
  intros Huniq.
  destruct (GetPendingQuoteRequestByPair env from to w) as [[req|e] w1] eqn:Hget.
  - destruct (CreateOrGetPending_found _ _ _ _ _ Hget) as (_ & _ & [->| ->]);
      [done|].
    by apply pendingUnique_alter_updated_at.
  - rewrite (CreateOrGetPending_not_found _ _ _ _ _ Hget).
    apply CreateQuoteRequest_pendingUnique.
    destruct (GetPendingQuoteRequestByPair_frame from to w) as [Hrs _].
    rewrite Hget in Hrs. simpl in Hrs. by rewrite Hrs.
Qed.

Lemma reads_frame w :
  (∀ id, quote_requests (GetQuoteRequest env id w).2 = quote_requests w) ∧
  (∀ from to, quote_requests (GetQuote env from to w).2 = quote_requests w) ∧
  quote_requests (GetPendingQuoteRequests env w).2 = quote_requests w.
Proof.
  repeat split; intros;
    unfold GetQuoteRequest, GetQuote, GetPendingQuoteRequests, send; simpl;
    destruct (dbFails _ _ _); try done.
  - by destruct (quote_requests w !! id).
  - by destruct (quotes w !! (from, to)).
Qed.





(** C6 (amended). When the database executes the statement,
    [UpdateQuoteRequestStatus] on an id that is not in the store reports no
    error and leaves the store as it was; on an id that is in the store it
    overwrites the status, whatever the previous one, and sets [updated_at]
    to the current time, the other columns and rows staying as they were.
    The one update the store refuses is to "pending" while another pending
    request holds the same pair. *)
Theorem UpdateQuoteRequestStatus_spec id st w :
  dbFails env (calls w) (UpdateStatus st (clock env (ticks w)) id) = false →
  let res := UpdateQuoteRequestStatus env id st w in
  (quote_requests w !! id = None →
     res.1 = Ok () ∧ quote_requests res.2 = quote_requests w) ∧
  (∀ row, quote_requests w !! id = Some row →
     st ≠ "pending" ∨ otherPending id row (quote_requests w) = [] →
     res.1 = Ok () ∧
     quote_requests res.2 = <[id := statusRow env st row w]> (quote_requests w)) ∧
  (∀ row, quote_requests w !! id = Some row →
     st = "pending" → otherPending id row (quote_requests w) ≠ [] →
     is_ok res.1 = false ∧ quote_requests res.2 = quote_requests w).
Proof.
  intros Hdb. unfold UpdateQuoteRequestStatus, now, send, statusRow. simpl.
  rewrite Hdb. split; [|split].
  - intros Hnone. by rewrite Hnone.
  - intros row Hrow Hok. rewrite Hrow. case_decide as Hd; [|done].
    destruct Hd as [-> Hne]. by destruct Hok.
  - intros row Hrow -> Hne. rewrite Hrow. by rewrite decide_True.
Qed.

End operations.


(** C6 as worded fails: the id is not in the store and the update reports
    success. *)
Lemma UpdateQuoteRequestStatus_unknown_id_counterexample :
  quote_requests (emptyWorld : World Qc) !! "no-such-id" = None ∧
  (UpdateQuoteRequestStatus quietEnv "no-such-id" "failed" emptyWorld).1 = Ok ().
Proof. split; reflexivity. Qed.

Lemma UpdateQuoteRequestStatus_spec_witness :
  (UpdateQuoteRequestStatus quietEnv "1001" "failed" oneRequest).1 = Ok () ∧
  quote_requests (UpdateQuoteRequestStatus quietEnv "1001" "failed" oneRequest).2
    = <["1001" := statusRow quietEnv "failed" oneRequestRow oneRequest]>
        (quote_requests oneRequest).
Proof.
  assert (Hdb : dbFails quietEnv (calls oneRequest)
            (UpdateStatus "failed" (clock quietEnv (ticks oneRequest)) "1001")
          = false) by reflexivity.
  destruct (UpdateQuoteRequestStatus_spec quietEnv "1001" "failed" oneRequest Hdb)
    as (_ & Hpresent & _).
  apply (Hpresent oneRequestRow); [reflexivity|].
  left. discriminate.
Defined.

End RequestStore.

(** ** Rate source *)

Module RateSource.
Import Utils Database External.

Section fetch.
Context {F : Type} `{RateNum F} (env : Env F).
Implicit Types (w : World F).

Lemma GetMultipleExchangeRates_frame currencies w :
  let res := GetMultipleExchangeRates env currencies w in
  quote_requests res.2 = quote_requests w ∧ quotes res.2 = quotes w ∧
  ticks res.2 = ticks w ∧ calls res.2 = calls w ∧
  ∀ entry, entry ∈ logs w → entry ∈ logs res.2.
Proof.
  unfold GetMultipleExchangeRates, roundTrip. case_decide; [done|].
  destruct (http _ _ _) as [e|e|code [e|e|[[] [rates|] date]]]; simpl;
    try case_decide; simpl; repeat split; try done;
    intros entry Hin; repeat (apply elem_of_app; left); done.
Qed.

Lemma GetMultipleExchangeRates_fetches currencies w :
  currencies ≠ [] →
  fetches (GetMultipleExchangeRates env currencies w).2 = S (fetches w).
Proof.
  intros Hne. unfold GetMultipleExchangeRates, roundTrip.
  rewrite decide_False by (by destruct currencies).
  destruct (http _ _ _) as [e|e|code [e|e|apiResp]]; simpl; try done;
    case_decide; try done.
  destruct (Success apiResp); simpl; [|done].
  by destruct (Rates apiResp).
Qed.


(** A successful fetch whose payload carries a [rates] object returns that
    map with "USD" set to 1.0, whether the provider listed "USD" or not. *)
Lemma GetMultipleExchangeRates_succeeded currencies w rates :
  currencies ≠ [] →
  fetchSucceeded (http env (fetches w) (symbolsOf currencies)) (Some rates) →
  (GetMultipleExchangeRates env currencies w).1
    = Returns (Ok (<["USD" := rate_one]> rates)) ∧
  (<["USD" := rate_one]> rates) !! "USD" = Some rate_one.
Proof.
  intros Hne (apiResp & Hreply & Hs & Hr).
  unfold GetMultipleExchangeRates, roundTrip.
  rewrite decide_False by (by destruct currencies).
  rewrite Hreply. simpl. rewrite Hs, Hr. simpl.
  split; [done|]. apply lookup_insert_eq.
Qed.

(** The same fetch with the [rates] object left out: the assignment
    [apiResp.Rates["USD"] = 1.0] hits a nil map. *)
Lemma GetMultipleExchangeRates_nil_rates currencies w :
  currencies ≠ [] →
  fetchSucceeded (http env (fetches w) (symbolsOf currencies)) None →
  (GetMultipleExchangeRates env currencies w).1
    = Panics "assignment to entry in nil map".
Proof.
  intros Hne (apiResp & Hreply & Hs & Hr).
  unfold GetMultipleExchangeRates, roundTrip.
  rewrite decide_False by (by destruct currencies).
  rewrite Hreply. simpl. by rewrite Hs, Hr.
Qed.

End fetch.

(** C5 on the reply [{"success": true}] (HTTP 200, parsable, success flag
    set, no [rates]): [GetMultipleExchangeRates] returns no map at all, it
    panics on the write of the "USD" entry. *)
Lemma GetMultipleExchangeRates_panics_without_rates :
  fetchSucceeded (http noRatesEnv 0 (symbolsOf ["EUR"; "MXN"])) None ∧
  (GetMultipleExchangeRates noRatesEnv ["EUR"; "MXN"] emptyWorld).1
    = Panics "assignment to entry in nil map".
Proof.
  split; [|reflexivity].
  eexists. split; [reflexivity|]. split; reflexivity.
Qed.

End RateSource.

(** ** Lifecycle engine *)

Module Lifecycle.
Import Utils Database External Worker RateArithmetic RequestStore RateSource.

#[local] Arguments updateStatus : simpl never.
#[local] Arguments updateStatuses : simpl never.
#[local] Arguments UpdateQuoteRequestStatus : simpl never.
#[local] Arguments UpsertQuote : simpl never.
#[local] Arguments GetPendingQuoteRequests : simpl never.
#[local] Arguments GetMultipleExchangeRates : simpl never.
#[local] Arguments CalculateExchangeRate : simpl never.
#[local] Arguments processCurrencyPairWithRates : simpl never.

Section status_loop.
Context {F : Type} (env : Env F).
Implicit Types (w : World F) (requests : list QuoteRequest).

Lemma updateStatus_requests st msg w req :
  quote_requests (updateStatus env st msg w req)
  = quote_requests (UpdateQuoteRequestStatus env (ID req) st w).2.
Proof.
  unfold updateStatus.
  by destruct (UpdateQuoteRequestStatus env (ID req) st w) as [[?|?] ?].
Qed.

Lemma updateStatus_frame st msg w req :
  let w' := updateStatus env st msg w req in
  quotes w' = quotes w ∧ fetches w' = fetches w ∧
  ticks w' = S (ticks w) ∧ calls w' = S (calls w).
Proof.
  unfold updateStatus.
  pose proof (UpdateQuoteRequestStatus_frame env (ID req) st w) as Hfr.
  destruct (UpdateQuoteRequestStatus env (ID req) st w) as [[?|?] ?];
    simpl in *; tauto.
Qed.


Lemma updateStatuses_frame st msg requests w :
  let w' := updateStatuses env st msg requests w in
  quotes w' = quotes w ∧ fetches w' = fetches w ∧
  ticks w' = length requests + ticks w ∧ calls w' = length requests + calls w.
Proof.
  unfold updateStatuses. revert w.
  induction requests as [|req rest IH]; intros w; simpl; [done|].
  destruct (IH (updateStatus env st msg w req)) as (-> & -> & -> & ->).
  destruct (updateStatus_frame st msg w req) as (-> & -> & -> & ->).
  repeat split; lia.
Qed.


(** A status loop leaves alone every row whose id is not in its list. *)
Lemma updateStatuses_other st msg requests w id :
  id ∉ ID <$> requests →
  quote_requests (updateStatuses env st msg requests w) !! id
  = quote_requests w !! id.
Proof.
  unfold updateStatuses. revert w.
  induction requests as [|req rest IH]; intros w Hid; simpl; [done|].
  rewrite fmap_cons, not_elem_of_cons in Hid. destruct Hid as [Hne Hid].
  rewrite IH by done.
  rewrite updateStatus_requests. by apply UpdateQuoteRequestStatus_other.
Qed.

(** A row keeps its pair and creation time through a status loop. *)
Lemma updateStatus_lookup st msg w req id row :
  quote_requests w !! id = Some row →
  ∃ row', quote_requests (updateStatus env st msg w req) !! id = Some row' ∧
          restatused (status row') row row' ∧
          (status row' = status row ∨ (status row' = st ∧ id = ID req)).
Proof.
  intros Hrow. rewrite updateStatus_requests.
  destruct (UpdateQuoteRequestStatus_cases env (ID req) st w)
    as [[_ ->]|[(_ & _ & ->)|(_ & row0 & Hrow0 & _ & ->)]].
  - exists row. repeat split; auto.
  - exists row. repeat split; auto.
  - destruct (decide (id = ID req)) as [->|Hne].
    + rewrite lookup_insert_eq. eexists. split; [done|].
      simplify_eq. repeat split; auto.
    + rewrite lookup_insert_ne by done. exists row. repeat split; auto.
Qed.

Lemma updateStatuses_lookup st msg requests w id row :
  quote_requests w !! id = Some row →
  ∃ row', quote_requests (updateStatuses env st msg requests w) !! id = Some row' ∧
          restatused (status row') row row' ∧
          (status row' = status row ∨ status row' = st).
Proof.
  unfold updateStatuses. revert w row.
  induction requests as [|req rest IH]; intros w row Hrow; simpl.
  - exists row. repeat split; auto.
  - destruct (updateStatus_lookup st msg w req id row Hrow)
      as (row1 & Hrow1 & (Hf1 & Ht1 & Hc1 & _) & Hs1).
    destruct (IH _ _ Hrow1) as (row2 & Hrow2 & (Hf2 & Ht2 & Hc2 & _) & Hs2).
    exists row2. split; [done|]. split.
    + repeat split; congruence.
    + destruct Hs2 as [Hs2|Hs2]; [|by right].
      destruct Hs1 as [Hs1|[Hs1 _]]; [left|right]; congruence.
Qed.

Lemma updateStatuses_lookup_None st msg requests w id :
  quote_requests w !! id = None →
  quote_requests (updateStatuses env st msg requests w) !! id = None.
Proof.
  unfold updateStatuses. revert w.
  induction requests as [|req rest IH]; intros w Hrow; simpl; [done|].
  apply IH. rewrite updateStatus_requests.
  destruct (UpdateQuoteRequestStatus_cases env (ID req) st w)
    as [[_ ->]|[(_ & _ & ->)|(_ & row0 & Hrow0 & _ & ->)]]; try done.
  rewrite lookup_insert_ne; [done|]. intros <-. congruence.
Qed.

(** With a database that answers, a status loop to a status other than
    "pending" sets that status on every row it names. *)
Lemma updateStatuses_done st msg requests w id row :
  noDbFaults env → st ≠ "pending" →
  id ∈ ID <$> requests →
  quote_requests w !! id = Some row →
  ∃ row', quote_requests (updateStatuses env st msg requests w) !! id = Some row' ∧
          restatused st row row'.
Proof.
  intros Hdb Hst. revert w row.
  induction requests as [|req rest IH]; intros w row Hin Hrow.
  - by apply elem_of_nil in Hin.
  - rewrite fmap_cons in Hin.
    change (updateStatuses env st msg (req :: rest) w)
      with (updateStatuses env st msg rest (updateStatus env st msg w req)).
    destruct (decide (id = ID req)) as [->|Hne].
    + assert (Hrow1 : quote_requests (updateStatus env st msg w req) !! ID req
                      = Some (statusRow env st row w)).
      { rewrite updateStatus_requests.
        destruct (UpdateQuoteRequestStatus_ok env (ID req) st w row (Hdb _ _) Hrow)
          as [_ ->]; [by left|].
        apply lookup_insert_eq. }
      destruct (updateStatuses_lookup st msg rest _ _ _ Hrow1)
        as (row2 & Hrow2 & (Hf & Ht & Hc & _) & Hs).
      exists row2. split; [done|]. repeat split; try done.
      by destruct Hs.
    + apply elem_of_cons in Hin as [?|Hin]; [done|].
      apply IH; [done|].
      rewrite updateStatus_requests. by rewrite UpdateQuoteRequestStatus_other.
Qed.


End status_loop.

Section quote_table.
Context {F : Type} (env : Env F).
Implicit Types (w : World F).


Lemma UpsertQuote_cases from to r w :
  let res := UpsertQuote env from to r w in
  (is_ok res.1 = false ∧ quotes res.2 = quotes w) ∨
  (res.1 = Ok () ∧
   ∃ row', quotes res.2 = <[(from, to) := row']> (quotes w) ∧ rate row' = r ∧
     (quote_id row' = pretty (clock env (S (ticks w))) ∨
      ∃ row, quotes w !! (from, to) = Some row ∧ quote_id row' = quote_id row)).
Proof.
  unfold UpsertQuote, generateID, now, send. simpl.
  destruct (dbFails _ _ _); [by left|].
  destruct (quotes w !! (from, to)) as [row|] eqn:Hrow.
  - right. split; [done|]. eexists. split; [done|]. split; [done|]. right. eauto.
  - case_decide; [by left|]. right. split; [done|]. eexists. split; [done|].
    split; [done|]. by left.
Qed.


Lemma UpsertQuote_other from to r w p :
  p ≠ (from, to) → quotes (UpsertQuote env from to r w).2 !! p = quotes w !! p.
Proof.
  intros Hne.
  destruct (UpsertQuote_cases from to r w) as [[_ ->]|(_ & row' & -> & _)];
    [done|].
  by rewrite lookup_insert_ne.
Qed.



End quote_table.

Section pair.
Context {F : Type} `{RateNum F} (env : Env F).
Implicit Types (w : World F) (requests : list QuoteRequest).

Lemma processCurrencyPairWithRates_finished key requests usdRates w :
  requests ≠ [] →
  ∃ w', processCurrencyPairWithRates env key requests usdRates w = Finished w'.
Proof.
  intros Hne. unfold processCurrencyPairWithRates.
  destruct requests as [|first rest]; [done|].
  destruct (CalculateExchangeRate _ _ _); [|eauto].
  destruct (UpsertQuote _ _ _ _ _) as [[?|?] ?]; eauto.
Qed.

(** A group leaves alone the rows of the requests that are not its own. *)
Lemma processCurrencyPairWithRates_other key requests usdRates w id :
  id ∉ ID <$> requests →
  quote_requests (worldOf (processCurrencyPairWithRates env key requests usdRates w))
    !! id = quote_requests w !! id.
Proof.
  intros Hid. unfold processCurrencyPairWithRates.
  destruct requests as [|first rest]; [done|].
  destruct (CalculateExchangeRate _ _ _) as [r|e]; simpl.
  - pose proof (UpsertQuote_frame env (From first) (To first) r
        (updateStatuses env "processing"
           "Failed to update request status to processing" (first :: rest)
           (logMsg DebugLevel
              "Processing currency pair requests with pre-fetched rates" w)))
      as [Hrs _].
    destruct (UpsertQuote _ _ _ _ _) as [[?|?] w3]; simpl in *.
    + rewrite updateStatuses_other by done. rewrite Hrs.
      by rewrite updateStatuses_other.
    + rewrite updateStatuses_other by done. simpl. rewrite Hrs.
      by rewrite updateStatuses_other.
  - rewrite updateStatuses_other by done. simpl.
    by rewrite updateStatuses_other.
Qed.

(** A group writes no quote but that of its own pair. *)
Lemma processCurrencyPairWithRates_other_pair key requests usdRates w p :
  (∀ first, head requests = Some first → p ≠ (From first, To first)) →
  quotes (worldOf (processCurrencyPairWithRates env key requests usdRates w)) !! p
  = quotes w !! p.
Proof.
  intros Hp. unfold processCurrencyPairWithRates.
  destruct requests as [|first rest]; [done|].
  specialize (Hp first eq_refl).
  set (w2 := updateStatuses env "processing" _ (first :: rest) _).
  assert (Hq2 : quotes w2 = quotes w).
  { unfold w2. by destruct (updateStatuses_frame env "processing"
      "Failed to update request status to processing" (first :: rest)
      (logMsg DebugLevel
         "Processing currency pair requests with pre-fetched rates" w))
      as [-> _]. }
  destruct (CalculateExchangeRate _ _ _) as [r|e]; simpl.
  + pose proof (UpsertQuote_other env (From first) (To first) r w2 p Hp) as Ho.
    destruct (UpsertQuote _ _ _ _ _) as [[?|?] w3]; simpl in *.
    * destruct (updateStatuses_frame env "completed"
        "Failed to update request status to completed" (first :: rest) w3)
        as [-> _]. by rewrite Ho, Hq2.
    * destruct (updateStatuses_frame env "failed" failedMsg (first :: rest)
        (logErr ErrorLevel "Failed to save quote to database" e None w3))
        as [-> _]. simpl. by rewrite Ho, Hq2.
  + destruct (updateStatuses_frame env "failed" failedMsg (first :: rest)
        (logErr ErrorLevel "Failed to calculate exchange rate" e None w2))
        as [-> _]. simpl. by rewrite Hq2.
Qed.






End pair.

Section discovery.



Lemma elem_of_pendingRequests (rs : gmap string RequestRow) req :
  req ∈ pendingRequests rs ↔
  ∃ id row, req = mkRequest id row ∧ rs !! id = Some row ∧
            status row = "pending".
Proof.
  unfold pendingRequests. rewrite merge_sort_Permutation, list_elem_of_fmap.
  split.
  - intros ([id row] & -> & Hin). apply list_elem_of_filter in Hin as [Hs Hin].
    apply elem_of_map_to_list in Hin. eauto.
  - intros (id & row & -> & Hl & Hs). exists (id, row). split; [done|].
    apply list_elem_of_filter. split; [done|]. by apply elem_of_map_to_list.
Qed.

Lemma pendingRequests_NoDup (rs : gmap string RequestRow) :
  NoDup (ID <$> pendingRequests rs).
Proof.
  unfold pendingRequests. rewrite merge_sort_Permutation, <- list_fmap_compose.
  apply (sublist_NoDup _ (map_to_list rs).*1).
  - apply NoDup_fst_map_to_list.
  - apply (fmap_sublist fst), sublist_filter.
Qed.

Lemma pendingRequests_nil (rs : gmap string RequestRow) :
  pendingRequests rs = [] ↔
  ∀ id row, rs !! id = Some row → status row ≠ "pending".
Proof.
  split.
  - intros Hnil id row Hl Hs.
    assert (Hin : mkRequest id row ∈ pendingRequests rs)
      by (apply elem_of_pendingRequests; eauto).
    rewrite Hnil in Hin. by apply not_elem_of_nil in Hin.
  - intros Hno. destruct (pendingRequests rs) as [|req l] eqn:Heq; [done|].
    assert (Hin : req ∈ pendingRequests rs) by (rewrite Heq; left).
    apply elem_of_pendingRequests in Hin as (id & row & _ & Hl & Hs).
    by destruct (Hno id row Hl).
Qed.

(** The groups of a cycle: the requests of one key, in the order of
    discovery. *)
Lemma groupByPair_lookup (requests : list QuoteRequest) key :
  groupByPair requests !! key =
  match filter (λ req, pairKey req = key) requests with
  | [] => None
  | group => Some group
  end.
Proof.
  unfold groupByPair. induction requests as [|req rest IH] using rev_ind.
  - done.
  - rewrite foldl_snoc, filter_app.
    destruct (decide (pairKey req = key)) as [<-|Hne].
    + rewrite lookup_insert_eq, IH.
      rewrite (filter_cons_True _ req []) by done.
      by destruct (filter _ rest).
    + rewrite lookup_insert_ne by done. rewrite IH.
      rewrite (filter_cons_False _ req []) by done.
      by rewrite app_nil_r.
Qed.

Lemma groupByPair_Some (requests : list QuoteRequest) key group :
  groupByPair requests !! key = Some group →
  group ≠ [] ∧ ∀ req, req ∈ group ↔ req ∈ requests ∧ pairKey req = key.
Proof.
  rewrite groupByPair_lookup. intros Hg.
  assert (Heq : group = filter (λ req, pairKey req = key) requests)
    by (destruct (filter _ requests); congruence).
  split.
  - intros ->. by rewrite <- Heq in Hg.
  - intros req. rewrite Heq, list_elem_of_filter. tauto.
Qed.

Lemma groupByPair_of (requests : list QuoteRequest) req :
  req ∈ requests →
  ∃ group, groupByPair requests !! pairKey req = Some group ∧ req ∈ group.
Proof.
  intros Hin. rewrite groupByPair_lookup.
  assert (Hreq : req ∈ filter (λ r, pairKey r = pairKey req) requests)
    by (by apply list_elem_of_filter).
  destruct (filter _ requests) as [|r0 g]; [by apply elem_of_nil in Hreq|].
  eauto.
Qed.

Context {F : Type} (env : Env F).

Lemma rangeOrder_Permutation n (m : gmap string (list QuoteRequest)) :
  rangeOrder env n m ≡ₚ map_to_list m.
Proof. apply merge_sort_Permutation. Qed.

Lemma elem_of_rangeOrder n (m : gmap string (list QuoteRequest)) key group :
  (key, group) ∈ rangeOrder env n m ↔ m !! key = Some group.
Proof. by rewrite rangeOrder_Permutation, elem_of_map_to_list. Qed.


Lemma rankIn_lookup (l : list (string * list QuoteRequest)) i kg :
  NoDup l.*1 → l !! i = Some kg → rankIn l kg.1 = i.
Proof.
  intros Hnd Hi. unfold rankIn.
  destruct (list_find_elem_of (λ kg', kg'.1 = kg.1) l kg) as [[j kg'] Hfind];
    [by eapply list_elem_of_lookup_2|done|].
  rewrite Hfind. apply list_find_Some in Hfind as (Hj & Hkey & _).
  apply (NoDup_lookup l.*1 j i kg.1); [done|..];
    rewrite list_lookup_fmap; [rewrite Hj|rewrite Hi]; simpl; congruence.
Qed.

#[local] Instance visitedBefore_trans n : Transitive (visitedBefore env n).
Proof. intros a b c. unfold visitedBefore. lia. Qed.

#[local] Instance visitedBefore_total n : Total (visitedBefore env n).
Proof. intros a b. unfold visitedBefore. lia. Qed.

(** Every order of the entries of a map is the order of the visit under
    some ranking: the model leaves the order of a [range] as open as Go
    does. *)
Lemma rangeOrder_any n (m : gmap string (list QuoteRequest)) l :
  l ≡ₚ map_to_list m →
  (∀ key, rangePriority env n key = rankIn l key) →
  rangeOrder env n m = l.
Proof.
  intros Hperm Hrank.
  assert (Hnd : NoDup l.*1) by (rewrite Hperm; apply NoDup_fst_map_to_list).
  assert (Hsorted : ∀ l1 l2, l = l1 ++ l2 → StronglySorted (visitedBefore env n) l2).
  { intros l1 l2. revert l1. induction l2 as [|x l2 IH]; intros l1 Hl.
    - constructor.
    - constructor.
      + apply (IH (l1 ++ [x])). by rewrite <- app_assoc.
      + apply Forall_forall. intros y Hy.
        apply list_elem_of_lookup in Hy as [j Hj].
        unfold visitedBefore. rewrite !Hrank.
        rewrite (rankIn_lookup l (length l1) x Hnd),
                (rankIn_lookup l (length l1 + S j) y Hnd); [lia|..].
        * rewrite Hl, lookup_app_r by lia.
          by replace (length l1 + S j - length l1) with (S j) by lia.
        * rewrite Hl. by apply list_lookup_middle. }
  apply (Sorted_unique_strong (visitedBefore env n)).
  - intros x1 x2 Hx1 Hx2 H12 H21.
    rewrite rangeOrder_Permutation, <- Hperm in Hx1.
    apply list_elem_of_lookup in Hx1 as [i1 Hi1].
    apply list_elem_of_lookup in Hx2 as [i2 Hi2].
    unfold visitedBefore in H12, H21. rewrite !Hrank in H12, H21.
    rewrite (rankIn_lookup l i1 x1 Hnd Hi1), (rankIn_lookup l i2 x2 Hnd Hi2)
      in H12, H21.
    assert (i1 = i2) as -> by lia. congruence.
  - apply Sorted_merge_sort, _.
  - apply StronglySorted_Sorted, (Hsorted []). done.
  - by rewrite rangeOrder_Permutation.
Qed.

End discovery.

Section cycle.
Context {F : Type} `{RateNum F} (env : Env F).
Implicit Types (w : World F) (requests : list QuoteRequest).

Lemma rangePairs_other groups usdRates w id :
  (∀ key group, (key, group) ∈ groups → id ∉ ID <$> group) →
  quote_requests (worldOf (rangePairs env groups usdRates w)) !! id
  = quote_requests w !! id.
Proof.
  revert w. induction groups as [|[key group] groups IH]; intros w Hid; [done|].
  simpl.
  pose proof (processCurrencyPairWithRates_other env key group usdRates w id)
    as Hone.
  destruct (processCurrencyPairWithRates env key group usdRates w) as [w1|msg w1];
    simpl in *.
  - rewrite IH.
    + apply Hone. apply (Hid key). left.
    + intros k g Hin. apply (Hid k). by right.
  - apply Hone. apply (Hid key). left.
Qed.

(** The groups a cycle ranges over hold discovered requests only. *)
Lemma rangeOrder_groupByPair n requests key group :
  (key, group) ∈ rangeOrder env n (groupByPair requests) →
  group ≠ [] ∧ ∀ req, req ∈ group ↔ req ∈ requests ∧ pairKey req = key.
Proof. rewrite elem_of_rangeOrder. apply groupByPair_Some. Qed.

Lemma extractUniqueCurrencies_from requests req :
  req ∈ requests → From req ∈ extractUniqueCurrencies requests.
Proof.
  unfold extractUniqueCurrencies. rewrite elem_of_elements.
  induction requests as [|r rest IH] using rev_ind.
  - intros Hin. by apply elem_of_nil in Hin.
  - rewrite foldl_snoc, elem_of_app, list_elem_of_singleton.
    intros [Hin| ->]; set_solver.
Qed.

Lemma extractUniqueCurrencies_nonempty requests :
  requests ≠ [] → extractUniqueCurrencies requests ≠ [].
Proof.
  destruct requests as [|req rest]; [done|]. intros _ Hnil.
  assert (Hin : From req ∈ extractUniqueCurrencies (req :: rest))
    by (apply extractUniqueCurrencies_from; left).
  rewrite Hnil in Hin. by apply not_elem_of_nil in Hin.
Qed.

(** One cycle leaves alone every request that is not pending when the
    cycle starts, whatever the database and the rate provider answer. *)
Lemma processPendingRequests_not_pending w id row :
  quote_requests w !! id = Some row → status row ≠ "pending" →
  quote_requests (worldOf (processPendingRequests env w)) !! id = Some row.
Proof.
  intros Hrow Hst. unfold processPendingRequests, GetPendingQuoteRequests, send.
  simpl. destruct (dbFails _ _ _); [done|].
  set (requests := pendingRequests (quote_requests w)).
  assert (Hid : id ∉ ID <$> requests).
  { intros Hin. apply list_elem_of_fmap in Hin as (req & -> & Hin).
    apply elem_of_pendingRequests in Hin as (id' & row' & -> & Hl & Hs).
    simpl in Hrow. congruence. }
  case_decide; [done|].
  match goal with
  | |- context [GetMultipleExchangeRates env ?cs ?w0] =>
    pose proof (GetMultipleExchangeRates_frame env cs w0) as (Hrs & _);
    destruct (GetMultipleExchangeRates env cs w0) as [[[usdRates|e]|msg] w3]
  end; simpl in *.
  - rewrite rangePairs_other; [by rewrite Hrs|].
    intros key group Hin Hin'.
    apply rangeOrder_groupByPair in Hin as [_ Hgroup].
    apply list_elem_of_fmap in Hin' as (req & -> & Hreq).
    apply Hid. apply list_elem_of_fmap. exists req. split; [done|].
    by apply Hgroup.
  - unfold markAllRequestsAsFailed. rewrite updateStatuses_other by done.
    simpl. by rewrite Hrs.
  - by rewrite Hrs.
Qed.

Lemma runCycles_not_pending n w id row :
  quote_requests w !! id = Some row → status row ≠ "pending" →
  quote_requests (worldOf (runCycles env n w)) !! id = Some row.
Proof.
  revert w. induction n as [|n IH]; intros w Hrow Hst; [done|].
  simpl.
  pose proof (processPendingRequests_not_pending w id row Hrow Hst) as Hone.
  destruct (processPendingRequests env w) as [w1|msg w1]; simpl in *; auto.
Qed.

(** C7. A request whose status is completed or failed is left as it is by
    every later cycle, whatever the database and the rate provider answer
    in those cycles: its row after any number of cycles is the row it was
    (discovery selects pending requests only). *)
Theorem terminal_requests_untouched n w id row :
  quote_requests w !! id = Some row →
  status row = "completed" ∨ status row = "failed" →
  quote_requests (worldOf (runCycles env n w)) !! id = Some row.
Proof.
  intros Hrow Hst. apply runCycles_not_pending; [done|].
  intros Hp. rewrite Hp in Hst. by destruct Hst.
Qed.

(** The cycle goes through the operations of the store only, and so keeps
    the dedup invariant, whatever the database and the provider answer. *)
Lemma updateStatuses_pendingUnique st msg requests w :
  pendingUnique (quote_requests w) →
  pendingUnique (quote_requests (updateStatuses env st msg requests w)).
Proof.
  unfold updateStatuses. revert w.
  induction requests as [|req rest IH]; intros w Huniq; simpl; [done|].
  apply IH. rewrite updateStatus_requests.
  by apply UpdateQuoteRequestStatus_pendingUnique.
Qed.

Lemma processCurrencyPairWithRates_pendingUnique key requests usdRates w :
  pendingUnique (quote_requests w) →
  pendingUnique
    (quote_requests (worldOf (processCurrencyPairWithRates env key requests usdRates w))).
Proof.
  intros Huniq. unfold processCurrencyPairWithRates.
  set (w2 := updateStatuses env "processing" _ requests _).
  assert (Huniq2 : pendingUnique (quote_requests w2))
    by by apply updateStatuses_pendingUnique.
  destruct requests as [|first rest]; [done|].
  destruct (CalculateExchangeRate _ _ _) as [r|e]; simpl.
  - pose proof (UpsertQuote_frame env (From first) (To first) r w2) as [Hrs _].
    destruct (UpsertQuote _ _ _ _ _) as [[?|?] w3]; simpl in *;
      apply updateStatuses_pendingUnique; simpl; by rewrite Hrs.
  - by apply updateStatuses_pendingUnique.
Qed.

Lemma rangePairs_pendingUnique groups usdRates w :
  pendingUnique (quote_requests w) →
  pendingUnique (quote_requests (worldOf (rangePairs env groups usdRates w))).
Proof.
  revert w. induction groups as [|[key group] groups IH]; intros w Huniq; [done|].
  simpl.
  pose proof (processCurrencyPairWithRates_pendingUnique key group usdRates
                w Huniq) as Hone.
  destruct (processCurrencyPairWithRates env key group usdRates w); auto.
Qed.

Lemma processPendingRequests_pendingUnique w :
  pendingUnique (quote_requests w) →
  pendingUnique (quote_requests (worldOf (processPendingRequests env w))).
Proof.
  intros Huniq. unfold processPendingRequests, GetPendingQuoteRequests, send.
  simpl. destruct (dbFails _ _ _); [done|].
  case_decide; [done|].
  match goal with
  | |- context [GetMultipleExchangeRates env ?cs ?w0] =>
    pose proof (GetMultipleExchangeRates_frame env cs w0) as (Hrs & _);
    destruct (GetMultipleExchangeRates env cs w0) as [[[usdRates|e]|msg] w3]
  end; simpl in *.
  - apply rangePairs_pendingUnique. by rewrite Hrs.
  - apply updateStatuses_pendingUnique. simpl. by rewrite Hrs.
  - by rewrite Hrs.
Qed.










End cycle.

End Lifecycle.

(** ** The properties on the concrete situations *)

Module Scenarios.
Import Utils Database External Worker RequestStore RateSource Lifecycle.

Lemma quietEnv_noDbFaults : noDbFaults quietEnv.
Proof. intros n s. reflexivity. Qed.




Lemma threeRequests_pending :
  pendingRequests (quote_requests threeRequests)
  = [mkRequest "1001" oneRequestRow; mkRequest "1003" usdEurRow;
     mkRequest "1005" eurCadRow].
Proof. reflexivity. Qed.


(** The scenario of the specification with a currency the provider leaves
    out: EUR/MXN and USD/EUR are completed with their quotes, EUR/CAD is
    failed. *)
Example afterOneCycle_statuses :
  status <$> quote_requests afterOneCycle !! "1001" = Some "completed" ∧
  status <$> quote_requests afterOneCycle !! "1003" = Some "completed" ∧
  status <$> quote_requests afterOneCycle !! "1005" = Some "failed" ∧
  rate <$> quotes afterOneCycle !! ("USD", "EUR") = Some (Q2Qc (85 # 100)) ∧
  quotes afterOneCycle !! ("EUR", "CAD") = None.
Proof. repeat split; reflexivity. Qed.

Lemma terminal_requests_untouched_witness :
  quote_requests (worldOf (runCycles quietEnv 3 afterOneCycle)) !! "1001"
  = Some completedRow.
Proof.
  apply (terminal_requests_untouched quietEnv 3 afterOneCycle "1001" completedRow).
  - reflexivity.
  - left. reflexivity.
Defined.





End Scenarios.

(** * Further properties *)

(** ** package database: look-ups, round trips, what the store keeps *)

Module StoreProps.
Import Utils Database External Worker RequestStore RateSource Lifecycle.

#[local] Instance createdBefore_trans : Transitive createdBefore.
Proof. intros a b c. unfold createdBefore. lia. Qed.

#[local] Instance createdBefore_total : Total createdBefore.
Proof. intros a b. unfold createdBefore. lia. Qed.

Section store.
Context {F : Type} (env : Env F).
Implicit Types (w : World F).

(** X1. When the database answers the query, [GetPendingQuoteRequests]
    returns the pending requests of the store and nothing else, each of
    them once, the oldest created first, and leaves the tables as they
    were. *)
Theorem GetPendingQuoteRequests_oldest_first w :
  dbFails env (calls w) SelectPending = false →
  ∃ requests,
    (GetPendingQuoteRequests env w).1 = Ok requests ∧
    (∀ req, req ∈ requests ↔
       ∃ id row, req = mkRequest id row ∧ quote_requests w !! id = Some row ∧
                 status row = "pending") ∧
    NoDup (ID <$> requests) ∧
    StronglySorted createdBefore requests ∧
    quote_requests (GetPendingQuoteRequests env w).2 = quote_requests w ∧
    quotes (GetPendingQuoteRequests env w).2 = quotes w.
Proof.
  intros Hdb. unfold GetPendingQuoteRequests, send. simpl. rewrite Hdb. simpl.
  eexists. split; [done|]. split; [|split; [|split]].
  - intros req. apply elem_of_pendingRequests.
  - apply pendingRequests_NoDup.
  - unfold pendingRequests. apply StronglySorted_merge_sort; apply _.
  - done.
Qed.

(** X2. A request that [CreateQuoteRequest] reports as created is read
    back by [GetQuoteRequest] under its id exactly as it was returned; it
    is pending, for the pair asked, with equal creation and update times,
    and its id was not in use before. *)
Theorem CreateQuoteRequest_GetQuoteRequest from to w req w1 :
  CreateQuoteRequest env from to w = (Ok req, w1) →
  dbFails env (calls w1) (SelectRequest (ID req)) = false →
  (GetQuoteRequest env (ID req) w1).1 = Ok req ∧
  From req = from ∧ To req = to ∧ Status req = "pending" ∧
  CreatedAt req = UpdatedAt req ∧
  quote_requests w !! ID req = None.
Proof.
  intros Hcreate Hdb.
  destruct (CreateQuoteRequest_cases env from to w)
    as [[Herr _]|(Hr & Hnone & _ & Hrs)];
    rewrite Hcreate in *; simpl in *; [done|].
  injection Hr as ->. simpl in *.
  unfold GetQuoteRequest, send. simpl. rewrite Hdb, Hrs, lookup_insert_eq.
  done.
Qed.

(** X3. [CreateQuoteRequest] is refused while a pending request exists for
    the pair, whatever else the database answers: it returns an error and
    both tables stay as they were. *)
Theorem CreateQuoteRequest_refused_while_pending from to w id row :
  quote_requests w !! id = Some row → isPendingFor from to row →
  is_ok (CreateQuoteRequest env from to w).1 = false ∧
  quote_requests (CreateQuoteRequest env from to w).2 = quote_requests w ∧
  quotes (CreateQuoteRequest env from to w).2 = quotes w.
Proof.
  intros Hrow Hp.
  destruct (CreateQuoteRequest_frame env from to w) as (Hq & _).
  destruct (CreateQuoteRequest_cases env from to w)
    as [[Herr Hrs]|(_ & _ & Hnil & _)]; [done|].
  pose proof (proj1 (pendingRows_nil _ _ _) Hnil id row Hrow) as Hno.
  by destruct Hno.
Qed.


(** X5. On a pair that already has a quote, [UpsertQuote] needs nothing
    but the database to answer: it replaces the rate and the update time
    in place, the quote keeps its id and its creation time, and no quote
    is added. *)
Theorem UpsertQuote_replaces_in_place from to r w row :
  quotes w !! (from, to) = Some row →
  dbFails env (calls w)
    (UpsertQuoteStmt (pretty (clock env (S (ticks w)))) from to r
       (clock env (ticks w)) (clock env (ticks w))) = false →
  (UpsertQuote env from to r w).1 = Ok () ∧
  quotes (UpsertQuote env from to r w).2 !! (from, to)
  = Some {| quote_id := quote_id row; rate := r;
            quote_created_at := quote_created_at row;
            quote_updated_at := clock env (ticks w) |} ∧
  dom (quotes (UpsertQuote env from to r w).2) = dom (quotes w).
Proof.
  intros Hrow Hdb. unfold UpsertQuote, generateID, now, send. simpl.
  rewrite Hdb, Hrow. simpl. split; [done|]. split.
  - apply lookup_insert_eq.
  - rewrite dom_insert_L. apply subseteq_union_1_L, singleton_subseteq_l.
    by apply elem_of_dom_2 in Hrow.
Qed.

Lemma CreateOrGetPending_returned_row from to w req :
  (CreateOrGetPendingQuoteRequest env from to w).1 = Ok req →
  From req = from ∧ To req = to ∧ Status req = "pending" ∧
  ∃ row, quote_requests (CreateOrGetPendingQuoteRequest env from to w).2 !! ID req
         = Some row ∧ isPendingFor from to row ∧ created_at row = CreatedAt req.
Proof.
  intros Hok.
  destruct (GetPendingQuoteRequestByPair env from to w) as [[found|e] w1] eqn:Hget.
  - pose proof (GetPendingQuoteRequestByPair_result env from to w found) as Hres.
    rewrite Hget in Hres.
    destruct (Hres eq_refl) as (id & row & -> & Hrow & Hf & Ht & Hs).
    destruct (CreateOrGetPending_found env _ _ _ _ _ Hget) as (Hr & _ & Hrs).
    rewrite Hr in Hok. injection Hok as <-. simpl.
    split; [done|]. split; [done|]. split; [done|].
    destruct Hrs as [-> | ->].
    + exists row. by repeat split.
    + rewrite lookup_alter_eq. simpl. rewrite Hrow. simpl.
      eexists. split; [done|]. by repeat split.
  - rewrite (CreateOrGetPending_not_found env _ _ _ _ _ Hget) in Hok |- *.
    destruct (CreateQuoteRequest_cases env from to w1)
      as [[Herr _]|(Hr & _ & _ & ->)].
    + by rewrite Hok in Herr.
    + rewrite Hr in Hok. injection Hok as <-. simpl.
      split; [done|]. split; [done|]. split; [done|].
      rewrite lookup_insert_eq. eexists. split; [done|]. by repeat split.
Qed.

(** X6. Asking twice gives the same request: when the database answers
    and the store holds at most one pending request per pair, a second
    [CreateOrGetPendingQuoteRequest] for the pair, right after a first one
    that succeeded, returns a request with the same id, pair, status and
    creation time, and adds no row. *)
Theorem CreateOrGetPending_twice from to w req w1 :
  noDbFaults env →
  pendingUnique (quote_requests w) →
  CreateOrGetPendingQuoteRequest env from to w = (Ok req, w1) →
  ∃ req', (CreateOrGetPendingQuoteRequest env from to w1).1 = Ok req' ∧
    ID req' = ID req ∧ From req' = From req ∧ To req' = To req ∧
    Status req' = Status req ∧ CreatedAt req' = CreatedAt req ∧
    dom (quote_requests (CreateOrGetPendingQuoteRequest env from to w1).2)
    = dom (quote_requests w1).
Proof.
  intros Hdb Huniq Hfirst.
  pose proof (CreateOrGetPending_returned_row from to w req) as Hret.
  pose proof (CreateOrGetPending_pendingUnique env from to w Huniq) as Huniq1.
  rewrite Hfirst in Hret, Huniq1. simpl in Hret, Huniq1.
  destruct (Hret eq_refl) as (Hf & Ht & Hs & row & Hrow & Hp & Hc).
  assert (Hget : ∃ w2, GetPendingQuoteRequestByPair env from to w1
                       = (Ok (mkRequest (ID req) row), w2)).
  { unfold GetPendingQuoteRequestByPair, send. simpl. rewrite (Hdb _ _).
    rewrite (head_pendingRows _ _ _ (ID req) row); eauto. }
  destruct Hget as [w2 Hget].
  destruct (CreateOrGetPending_found env _ _ _ _ _ Hget) as (Hr & _ & Hrs).
  eexists. split; [exact Hr|].
  destruct Hp as (Hpf & Hpt & Hps). simpl.
  repeat split; try congruence.
  destruct Hrs as [-> | ->]; [done|]. by rewrite dom_alter_L.
Qed.

Lemma UpsertQuote_keeps from to r w p q :
  quotes w !! p = Some q →
  ∃ q', quotes (UpsertQuote env from to r w).2 !! p = Some q' ∧
        quote_id q' = quote_id q ∧ quote_created_at q' = quote_created_at q.
Proof.
  intros Hq. unfold UpsertQuote, generateID, now, send. simpl.
  destruct (dbFails _ _ _); [eauto|].
  destruct (quotes w !! (from, to)) as [row|] eqn:Hrow; simpl.
  - destruct (decide ((from, to) = p)) as [<-|Hne].
    + rewrite lookup_insert_eq. simplify_eq. eauto.
    + rewrite lookup_insert_ne by done. eauto.
  - case_decide; simpl; [eauto|].
    rewrite lookup_insert_ne by congruence. eauto.
Qed.

(** X7. No operation of the store deletes a row or rewrites what
    identifies it, whatever the database answers: across any sequence of
    operations a request stays under its id with its pair and creation
    time, and a quote stays under its pair with its id and creation
    time. *)
Theorem runOps_keep_rows (ops : list (StoreOp F)) w :
  let w' := foldl (runOp env) w ops in
  (∀ id row, quote_requests w !! id = Some row →
     ∃ row', quote_requests w' !! id = Some row' ∧
             from_currency row' = from_currency row ∧
             to_currency row' = to_currency row ∧
             created_at row' = created_at row) ∧
  (∀ p q, quotes w !! p = Some q →
     ∃ q', quotes w' !! p = Some q' ∧ quote_id q' = quote_id q ∧
           quote_created_at q' = quote_created_at q).
Proof.
  induction ops as [|op ops IH] using rev_ind; simpl.
  { split; eauto 10. }
  rewrite foldl_snoc. destruct IH as [IHr IHq].
  set (w1 := foldl (runOp env) w ops) in *.
  assert (Hstep : (∀ id row, quote_requests w1 !! id = Some row →
            ∃ row', quote_requests (runOp env w1 op) !! id = Some row' ∧
                    from_currency row' = from_currency row ∧
                    to_currency row' = to_currency row ∧
                    created_at row' = created_at row) ∧
          (∀ p q, quotes w1 !! p = Some q →
            ∃ q', quotes (runOp env w1 op) !! p = Some q' ∧
                  quote_id q' = quote_id q ∧
                  quote_created_at q' = quote_created_at q)).
  { destruct (reads_frame env w1) as (Hr1 & Hr2 & Hr3).
    assert (Hqread : (∀ id, quotes (GetQuoteRequest env id w1).2 = quotes w1) ∧
              (∀ from to, quotes (GetQuote env from to w1).2 = quotes w1) ∧
              quotes (GetPendingQuoteRequests env w1).2 = quotes w1).
    { repeat split; intros;
        unfold GetQuoteRequest, GetQuote, GetPendingQuoteRequests, send; simpl;
        destruct (dbFails _ _ _); try done.
      - by destruct (quote_requests w1 !! id).
      - by destruct (quotes w1 !! (from, to)). }
    destruct Hqread as (Hq1 & Hq2 & Hq3).
    destruct op as [from to|from to|id st|id|from to| |from to r|from to]; simpl.
    - destruct (CreateQuoteRequest_frame env from to w1) as (-> & _).
      split; [|eauto]. intros id row Hrow.
      destruct (CreateQuoteRequest_cases env from to w1)
        as [[_ ->]|(_ & Hnone & _ & ->)]; [eauto|].
      rewrite lookup_insert_ne by congruence. eauto.
    - destruct (GetPendingQuoteRequestByPair env from to w1)
        as [[found|e] w2] eqn:Hget.
      + destruct (CreateOrGetPending_found env _ _ _ _ _ Hget)
          as (_ & -> & Hrs).
        split; [|eauto]. intros id row Hrow. destruct Hrs as [-> | ->]; [eauto|].
        destruct (decide (ID found = id)) as [->|Hne].
        * rewrite lookup_alter_eq, Hrow. simpl. eauto.
        * rewrite lookup_alter_ne by done. eauto.
      + rewrite (CreateOrGetPending_not_found env _ _ _ _ _ Hget).
        destruct (GetPendingQuoteRequestByPair_frame env from to w1)
          as (Hrs2 & Hqs2 & _).
        rewrite Hget in Hrs2, Hqs2. simpl in Hrs2, Hqs2.
        destruct (CreateQuoteRequest_frame env from to w2) as (-> & _).
        rewrite Hqs2. split; [|eauto]. intros id row Hrow.
        destruct (CreateQuoteRequest_cases env from to w2)
          as [[_ ->]|(_ & Hnone & _ & ->)]; rewrite Hrs2 in *; [eauto|].
        rewrite lookup_insert_ne by congruence. eauto.
    - destruct (UpdateQuoteRequestStatus_frame env id st w1) as (-> & _).
      split; [|eauto]. intros id' row Hrow.
      destruct (UpdateQuoteRequestStatus_cases env id st w1)
        as [[_ ->]|[(_ & _ & ->)|(_ & row0 & Hrow0 & _ & ->)]]; [eauto..|].
      destruct (decide (id = id')) as [->|Hne].
      + rewrite lookup_insert_eq. simplify_eq. eauto.
      + rewrite lookup_insert_ne by done. eauto.
    - rewrite Hr1, Hq1. split; eauto 10.
    - destruct (GetPendingQuoteRequestByPair_frame env from to w1)
        as (-> & -> & _). split; eauto 10.
    - rewrite Hr3, Hq3. split; eauto 10.
    - destruct (UpsertQuote_frame env from to r w1) as (-> & _).
      split; [eauto|]. intros p q Hq. by apply UpsertQuote_keeps.
    - rewrite Hr2, Hq2. split; eauto 10. }
  destruct Hstep as [Hsr Hsq]. split.
  - intros id row Hrow. destruct (IHr id row Hrow) as (row1 & Hrow1 & ? & ? & ?).
    destruct (Hsr id row1 Hrow1) as (row2 & Hrow2 & ? & ? & ?).
    exists row2. repeat split; congruence.
  - intros p q Hq. destruct (IHq p q Hq) as (q1 & Hq1 & ? & ?).
    destruct (Hsq p q1 Hq1) as (q2 & Hq2 & ? & ?).
    exists q2. repeat split; congruence.
Qed.

End store.

Lemma GetPendingQuoteRequests_oldest_first_witness :
  ∃ requests,
    (GetPendingQuoteRequests quietEnv threeRequests).1 = Ok requests ∧
    NoDup (ID <$> requests) ∧ StronglySorted createdBefore requests.
Proof.
  destruct (GetPendingQuoteRequests_oldest_first quietEnv threeRequests)
    as (requests & Hok & _ & Hnd & Hsorted & _).
  - reflexivity.
  - exists requests. split; [exact Hok|]. split; [exact Hnd|exact Hsorted].
Defined.

Lemma CreateQuoteRequest_GetQuoteRequest_witness :
  (GetQuoteRequest quietEnv "1003"
     (CreateQuoteRequest quietEnv "USD" "EUR" oneRequest).2).1
  = Ok (mkRequest "1003" usdEurRow).
Proof.
  apply (CreateQuoteRequest_GetQuoteRequest quietEnv "USD" "EUR" oneRequest
           (mkRequest "1003" usdEurRow)
           (CreateQuoteRequest quietEnv "USD" "EUR" oneRequest).2).
  - reflexivity.
  - reflexivity.
Defined.

Lemma CreateQuoteRequest_refused_while_pending_witness :
  is_ok (CreateQuoteRequest quietEnv "EUR" "MXN" oneRequest).1 = false.
Proof.
  apply (CreateQuoteRequest_refused_while_pending quietEnv "EUR" "MXN"
           oneRequest "1001" oneRequestRow).
  - reflexivity.
  - repeat split.
Defined.


Lemma UpsertQuote_replaces_in_place_witness :
  (UpsertQuote quietEnv "USD" "EUR" (Q2Qc 2) afterOneCycle).1 = Ok ().
Proof.
  assert (Hrow : ∃ row, quotes afterOneCycle !! ("USD", "EUR") = Some row)
    by (eexists; vm_compute; reflexivity).
  destruct Hrow as [row Hrow].
  apply (UpsertQuote_replaces_in_place quietEnv "USD" "EUR" (Q2Qc 2)
           afterOneCycle row Hrow).
  reflexivity.
Defined.

Lemma CreateOrGetPending_twice_witness :
  ∃ req', (CreateOrGetPendingQuoteRequest quietEnv "EUR" "MXN" oneRequest).1
          = Ok req' ∧ ID req' = "1001".
Proof.
  destruct (CreateOrGetPending_twice quietEnv "EUR" "MXN" emptyWorld
              (mkRequest "1001" oneRequestRow) oneRequest)
    as (req' & Hok & Hid & _).
  - intros n s. reflexivity.
  - apply pendingUnique_empty.
  - reflexivity.
  - exists req'. split; [exact Hok|exact Hid].
Defined.

End StoreProps.

(** ** package utils: errors and algebra of the cross rate *)

Module RateProps.
Import Utils RateArithmetic.

(** X8. [CalculateExchangeRate] fails exactly when one of the two codes
    is missing from the table, and the error names the first one missing
    ([from] before [to]); in particular it fails for every pair on the
    empty (or nil) table. Any arithmetic. *)
Theorem CalculateExchangeRate_unknown_currency `{RateNum F}
    (usdRates : gmap string F) from to :
  (usdRates !! from = None →
     CalculateExchangeRate from to usdRates
     = Err (ErrMsg ("currency " +:+ from +:+ " not found in rates"))) ∧
  (is_Some (usdRates !! from) → usdRates !! to = None →
     CalculateExchangeRate from to usdRates
     = Err (ErrMsg ("currency " +:+ to +:+ " not found in rates"))) ∧
  (is_ok (CalculateExchangeRate from to usdRates) = false ↔
     usdRates !! from = None ∨ usdRates !! to = None) ∧
  is_ok (CalculateExchangeRate from to (∅ : gmap string F)) = false.
Proof.
  unfold CalculateExchangeRate. rewrite !lookup_empty.
  destruct (usdRates !! from) as [ra|], (usdRates !! to) as [rb|]; simpl;
    repeat split; try done; try (by intros [??]); try (by intros [?|?]);
    auto.
Qed.

(** X9. In exact arithmetic, on a table of positive rates, the rate of
    every pair of listed codes is positive. *)
Theorem CalculateExchangeRate_positive (usdRates : gmap string Qc) from to :
  positiveRates usdRates →
  is_Some (usdRates !! from) → is_Some (usdRates !! to) →
  ∃ x, CalculateExchangeRate from to usdRates = Ok x ∧ (0 < x)%Qc.
Proof.
  intros Hpos [ra Ha] [rb Hb]. unfold CalculateExchangeRate. rewrite Ha, Hb.
  eexists. split; [done|].
  pose proof (Hpos _ _ Ha) as Hra. pose proof (Hpos _ _ Hb) as Hrb.
  repeat case_decide; simpl; [done|..]; unfold Qcdiv.
  - rewrite Qcmult_1_l. by apply Qcinv_pos.
  - apply Qcmult_pos_pos; [done|]. by apply Qcinv_pos.
Qed.

(** X10. In exact arithmetic, on a table of positive rates with "USD" at
    1, cross rates compose: the rate from [a] to [b] times the rate from
    [b] to [c] is the rate from [a] to [c], whichever of the three codes
    is "USD". *)
Theorem CalculateExchangeRate_composes (usdRates : gmap string Qc) a b c :
  positiveRates usdRates → usdAtOne usdRates →
  is_Some (usdRates !! a) → is_Some (usdRates !! b) → is_Some (usdRates !! c) →
  ∃ x y z, CalculateExchangeRate a b usdRates = Ok x ∧
           CalculateExchangeRate b c usdRates = Ok y ∧
           CalculateExchangeRate a c usdRates = Ok z ∧
           (x * y)%Qc = z.
Proof.
  intros Hpos Husd [ra Ha] [rb Hb] [rc Hc].
  unfold CalculateExchangeRate. rewrite Ha, Hb, Hc.
  eexists _, _, _. split; [done|]. split; [done|]. split; [done|].
  pose proof (Qc_pos_nonzero _ (Hpos _ _ Ha)) as Hra.
  pose proof (Qc_pos_nonzero _ (Hpos _ _ Hb)) as Hrb.
  pose proof (Qc_pos_nonzero _ (Hpos _ _ Hc)) as Hrc.
  destruct (decide (a = "USD")) as [->|Hau];
    [rewrite (Husd _ Ha) in *|];
    (destruct (decide (b = "USD")) as [->|Hbu];
      [rewrite (Husd _ Hb) in *|]);
    (destruct (decide (c = "USD")) as [->|Hcu];
      [rewrite (Husd _ Hc) in *|]);
    simpl; unfold Qcdiv; field; done.
Qed.

Lemma testRates_positive : positiveRates testRates.
Proof.
  intros c r. unfold testRates.
  rewrite !lookup_insert_Some, lookup_empty.
  intros [[_ <-]|[_ [[_ <-]|[_ [[_ <-]|[_ ?]]]]]]; done.
Qed.

Lemma testRates_usdAtOne : usdAtOne testRates.
Proof. intros r Hr. by injection Hr as <-. Qed.

Lemma CalculateExchangeRate_positive_witness :
  ∃ x, CalculateExchangeRate "EUR" "MXN" testRates = Ok x ∧ (0 < x)%Qc.
Proof.
  apply (CalculateExchangeRate_positive testRates "EUR" "MXN").
  - exact testRates_positive.
  - eexists. reflexivity.
  - eexists. reflexivity.
Defined.

Lemma CalculateExchangeRate_composes_witness :
  ∃ x y z, CalculateExchangeRate "EUR" "USD" testRates = Ok x ∧
           CalculateExchangeRate "USD" "MXN" testRates = Ok y ∧
           CalculateExchangeRate "EUR" "MXN" testRates = Ok z ∧
           (x * y)%Qc = z.
Proof.
  apply (CalculateExchangeRate_composes testRates "EUR" "USD" "MXN").
  - exact testRates_positive.
  - exact testRates_usdAtOne.
  - eexists. reflexivity.
  - eexists. reflexivity.
  - eexists. reflexivity.
Defined.

End RateProps.

(** ** package external: what a fetch asks, returns and leaves alone *)

Module FetchProps.
Import Utils Database External Worker RateArithmetic RequestStore RateSource.

(** X11. The symbols of the query are the requested codes other than
    "USD", each once: "USD" is never asked for, a code asked twice is sent
    once, and nothing else is sent. *)
Theorem symbolsOf_spec (currencies : list string) :
  NoDup (symbolsOf currencies) ∧
  ("USD" ∉ symbolsOf currencies) ∧
  ∀ c, c ∈ symbolsOf currencies ↔ c ∈ currencies ∧ c ≠ "USD".
Proof.
  assert (Hin : ∀ c, c ∈ symbolsOf currencies ↔ c ∈ currencies ∧ c ≠ "USD").
  { intros c. unfold symbolsOf.
    rewrite elem_of_elements, elem_of_list_to_set, list_elem_of_filter. tauto. }
  split; [unfold symbolsOf; apply NoDup_elements|]. split; [|done].
  rewrite Hin. tauto.
Qed.

Section fetch.
Context {F : Type} `{RateNum F} (env : Env F).
Implicit Types (w : World F).


(** X13. After a fetch that succeeds with the rates [rates], the table
    returned is [rates] with "USD" set to 1.0 and every other entry as
    the provider gave it, so that a cross rate on it fails only for a code
    the provider left out, never for "USD". *)
Theorem fetched_rates_resolve currencies w rates :
  currencies ≠ [] →
  fetchSucceeded (http env (fetches w) (symbolsOf currencies)) (Some rates) →
  ∃ usdRates,
    (GetMultipleExchangeRates env currencies w).1 = Returns (Ok usdRates) ∧
    usdRates !! "USD" = Some rate_one ∧
    (∀ c, c ≠ "USD" → usdRates !! c = rates !! c) ∧
    ∀ from to,
      is_ok (CalculateExchangeRate from to usdRates) = true ↔
      (from = "USD" ∨ is_Some (rates !! from)) ∧
      (to = "USD" ∨ is_Some (rates !! to)).
Proof.
  intros Hne Hfetch.
  destruct (GetMultipleExchangeRates_succeeded env currencies w rates Hne Hfetch)
    as [Hok Husd].
  eexists. split; [exact Hok|]. split; [exact Husd|].
  assert (Hsome : ∀ c, is_Some ((<["USD" := rate_one]> rates) !! c) ↔
                       c = "USD" ∨ is_Some (rates !! c)).
  { intros c. rewrite lookup_insert_is_Some. split.
    - intros [<-|[_ ?]]; auto.
    - intros [->|Hc]; [by left|].
      destruct (decide ("USD" = c)); [by left|by right]. }
  split.
  - intros c Hc. by rewrite lookup_insert_ne.
  - intros from to. by rewrite CalculateExchangeRate_ok_iff, !Hsome.
Qed.

End fetch.


Lemma fetched_rates_resolve_witness :
  ∃ usdRates,
    (GetMultipleExchangeRates quietEnv ["EUR"; "MXN"] emptyWorld).1
    = Returns (Ok usdRates) ∧
    usdRates !! "USD" = Some 1%Qc.
Proof.
  destruct (fetched_rates_resolve quietEnv ["EUR"; "MXN"] emptyWorld sampleRates)
    as (usdRates & Hok & Husd & _).
  - discriminate.
  - eexists. split; [reflexivity|]. split; reflexivity.
  - exists usdRates. split; [exact Hok|exact Husd].
Defined.

End FetchProps.

(** ** package worker: what a cycle asks, keeps and leaves behind *)

Module CycleProps.
Import Utils Database External Worker RateArithmetic RequestStore RateSource
  Lifecycle StoreProps.

#[local] Arguments updateStatus : simpl never.
#[local] Arguments updateStatuses : simpl never.
#[local] Arguments UpdateQuoteRequestStatus : simpl never.
#[local] Arguments UpsertQuote : simpl never.
#[local] Arguments GetPendingQuoteRequests : simpl never.
#[local] Arguments GetMultipleExchangeRates : simpl never.
#[local] Arguments CalculateExchangeRate : simpl never.
#[local] Arguments processCurrencyPairWithRates : simpl never.

(** X14. [extractUniqueCurrencies] lists the codes that occur as the
    [From] or the [To] of one of the requests, each once, and no other. *)
Theorem extractUniqueCurrencies_spec (requests : list QuoteRequest) :
  NoDup (extractUniqueCurrencies requests) ∧
  ∀ c, c ∈ extractUniqueCurrencies requests ↔
       ∃ req, req ∈ requests ∧ (c = From req ∨ c = To req).
Proof.
  unfold extractUniqueCurrencies. split; [apply NoDup_elements|].
  intros c. rewrite elem_of_elements.
  induction requests as [|r rest IH] using rev_ind.
  - simpl. split; [set_solver|]. intros (req & Hin & _).
    by apply elem_of_nil in Hin.
  - rewrite foldl_snoc, !elem_of_union, !elem_of_singleton, IH. split.
    + intros [->|[->|(req & Hin & Hc)]].
      * exists r. split; [apply elem_of_app; right; left|by right].
      * exists r. split; [apply elem_of_app; right; left|by left].
      * exists req. split; [apply elem_of_app; by left|done].
    + intros (req & Hin & Hc). apply elem_of_app in Hin as [Hin|Hin].
      * right; right. eauto.
      * apply list_elem_of_singleton in Hin as ->. destruct Hc; auto.
Qed.

(** X15. The grouping of a cycle is a partition by key: the group of a
    key is the list of the requests with that key, in the order of
    discovery and with nothing dropped or repeated; no group is empty; and
    a request is in the group of its own key and in no other. *)
Theorem groupByPair_partition (requests : list QuoteRequest) :
  (∀ key group, groupByPair requests !! key = Some group ↔
     group = filter (λ req, pairKey req = key) requests ∧ group ≠ []) ∧
  (∀ req, req ∈ requests →
     ∀ key, (∃ group, groupByPair requests !! key = Some group ∧ req ∈ group) ↔
            key = pairKey req).
Proof.
  assert (Hlookup : ∀ key group, groupByPair requests !! key = Some group ↔
            group = filter (λ req, pairKey req = key) requests ∧ group ≠ []).
  { intros key group. rewrite groupByPair_lookup.
    destruct (filter _ requests) as [|r g] eqn:Hf.
    - split; [done|]. by intros [-> ?].
    - split; [by intros [= <-]|]. by intros [-> _]. }
  split; [done|].
  intros req Hin key. split.
  - intros (group & Hg & Hreq). apply Hlookup in Hg as [-> _].
    apply list_elem_of_filter in Hreq as [Hkey _]. done.
  - intros ->. destruct (groupByPair_of requests req Hin) as (group & Hg & Hreq).
    eauto.
Qed.

Lemma touched_refl (row : RequestRow) : touched row row.
Proof. repeat split; auto. Qed.

Lemma touched_trans (row1 row2 row3 : RequestRow) :
  touched row1 row2 → touched row2 row3 → touched row1 row3.
Proof.
  intros (Hf1 & Ht1 & Hc1 & Hs1) (Hf2 & Ht2 & Hc2 & Hs2).
  repeat split; try congruence.
  destruct Hs2 as [Hs2|Hs2]; [|by right].
  destruct Hs1 as [Hs1|Hs1]; [left; congruence|right; by rewrite Hs2].
Qed.

Lemma touched_not_pending (row row' : RequestRow) :
  touched row row' → status row ≠ "pending" → status row' ≠ "pending".
Proof.
  intros (_ & _ & _ & [Hs|Hs]) Hne; [congruence|].
  intros Hp. rewrite Hp in Hs. unfold workerStatuses in Hs.
  rewrite !elem_of_cons, elem_of_nil in Hs.
  destruct Hs as [?|[?|[?|[]]]]; discriminate.
Qed.

Section cycle.
Context {F : Type} `{RateNum F} (env : Env F).
Implicit Types (w : World F) (requests : list QuoteRequest).

Lemma updateStatuses_touched st msg requests w id row :
  st ∈ workerStatuses →
  quote_requests w !! id = Some row →
  ∃ row', quote_requests (updateStatuses env st msg requests w) !! id = Some row' ∧
          touched row row'.
Proof.
  intros Hst Hrow.
  destruct (updateStatuses_lookup env st msg requests w id row Hrow)
    as (row' & Hrow' & (Hf & Ht & Hc & _) & Hs).
  exists row'. split; [done|]. repeat split; try done.
  destruct Hs as [Hs|Hs]; [by left|right; by rewrite Hs].
Qed.

Lemma workerStatuses_processing : "processing" ∈ workerStatuses.
Proof. left. Qed.

Lemma workerStatuses_completed : "completed" ∈ workerStatuses.
Proof. right; left. Qed.

Lemma workerStatuses_failed : "failed" ∈ workerStatuses.
Proof. right; right; left. Qed.

(** What one group does to the row of a request, its own or not. *)
Lemma processCurrencyPairWithRates_touched key requests usdRates w id row :
  quote_requests w !! id = Some row →
  ∃ row', quote_requests
            (worldOf (processCurrencyPairWithRates env key requests usdRates w))
            !! id = Some row' ∧ touched row row'.
Proof.
  intros Hrow. unfold processCurrencyPairWithRates.
  set (w1 := logMsg DebugLevel _ w).
  destruct (updateStatuses_touched "processing"
    "Failed to update request status to processing" requests w1 id row
    workerStatuses_processing Hrow) as (row2 & Hrow2 & Ht2).
  set (w2 := updateStatuses env "processing" _ requests w1) in *.
  destruct requests as [|first rest]; [by exists row2|].
  destruct (CalculateExchangeRate _ _ _) as [r|e]; simpl.
  - pose proof (UpsertQuote_frame env (From first) (To first) r w2) as [Hrs _].
    destruct (UpsertQuote _ _ _ _ _) as [[?|?] w3]; simpl in *.
    + destruct (updateStatuses_touched "completed"
        "Failed to update request status to completed" (first :: rest) w3 id row2
        workerStatuses_completed) as (row3 & Hrow3 & Ht3); [by rewrite Hrs|].
      exists row3. split; [done|]. by eapply touched_trans.
    + destruct (updateStatuses_touched "failed" failedMsg (first :: rest)
        (logErr ErrorLevel "Failed to save quote to database" e None w3) id row2
        workerStatuses_failed) as (row3 & Hrow3 & Ht3); [simpl; by rewrite Hrs|].
      exists row3. split; [done|]. by eapply touched_trans.
  - destruct (updateStatuses_touched "failed" failedMsg (first :: rest)
      (logErr ErrorLevel "Failed to calculate exchange rate" e None w2) id row2
      workerStatuses_failed) as (row3 & Hrow3 & Ht3); [done|].
    exists row3. split; [done|]. by eapply touched_trans.
Qed.

Lemma processCurrencyPairWithRates_lookup_None key requests usdRates w id :
  quote_requests w !! id = None →
  quote_requests
    (worldOf (processCurrencyPairWithRates env key requests usdRates w)) !! id
  = None.
Proof.
  intros Hnone. unfold processCurrencyPairWithRates.
  set (w1 := logMsg DebugLevel _ w).
  assert (Hnone2 : quote_requests (updateStatuses env "processing"
            "Failed to update request status to processing" requests w1) !! id
          = None) by by apply updateStatuses_lookup_None.
  set (w2 := updateStatuses env "processing" _ requests w1) in *.
  destruct requests as [|first rest]; [done|].
  destruct (CalculateExchangeRate _ _ _) as [r|e]; simpl.
  - pose proof (UpsertQuote_frame env (From first) (To first) r w2) as [Hrs _].
    destruct (UpsertQuote _ _ _ _ _) as [[?|?] w3]; simpl in *;
      apply updateStatuses_lookup_None; simpl; by rewrite Hrs.
  - by apply updateStatuses_lookup_None.
Qed.

Lemma processCurrencyPairWithRates_quotes_kept key requests usdRates w p q :
  quotes w !! p = Some q →
  ∃ q', quotes (worldOf (processCurrencyPairWithRates env key requests usdRates w))
          !! p = Some q' ∧ sameQuote q q'.
Proof.
  intros Hq. unfold processCurrencyPairWithRates.
  set (w1 := logMsg DebugLevel _ w).
  set (w2 := updateStatuses env "processing" _ requests w1).
  assert (Hq2 : quotes w2 = quotes w).
  { unfold w2. by destruct (updateStatuses_frame env "processing"
      "Failed to update request status to processing" requests w1) as [-> _]. }
  destruct requests as [|first rest]; [simpl; by exists q|].
  destruct (CalculateExchangeRate _ _ _) as [r|e]; simpl.
  - destruct (UpsertQuote_keeps env (From first) (To first) r w2 p q)
      as (q' & Hq' & Hsame); [by rewrite Hq2|].
    destruct (UpsertQuote _ _ _ _ _) as [[?|?] w3]; simpl in *.
    + destruct (updateStatuses_frame env "completed"
        "Failed to update request status to completed" (first :: rest) w3)
        as [-> _]. by exists q'.
    + destruct (updateStatuses_frame env "failed" failedMsg (first :: rest)
        (logErr ErrorLevel "Failed to save quote to database" e None w3))
        as [-> _]. by exists q'.
  - destruct (updateStatuses_frame env "failed" failedMsg (first :: rest)
      (logErr ErrorLevel "Failed to calculate exchange rate" e None w2))
      as [-> _]. simpl. exists q. by rewrite Hq2.
Qed.

Lemma rangePairs_kept groups usdRates w :
  let w' := worldOf (rangePairs env groups usdRates w) in
  (∀ id row, quote_requests w !! id = Some row →
     ∃ row', quote_requests w' !! id = Some row' ∧ touched row row') ∧
  (∀ id, quote_requests w !! id = None → quote_requests w' !! id = None) ∧
  (∀ p q, quotes w !! p = Some q →
     ∃ q', quotes w' !! p = Some q' ∧ sameQuote q q').
Proof.
  revert w. induction groups as [|[key group] groups IH]; intros w; simpl.
  { split; [|split]; eauto using touched_refl. intros p q Hq. by exists q. }
  pose proof (processCurrencyPairWithRates_touched key group usdRates w) as Ht.
  pose proof (processCurrencyPairWithRates_lookup_None key group usdRates w) as Hn.
  pose proof (processCurrencyPairWithRates_quotes_kept key group usdRates w) as Hq.
  destruct (processCurrencyPairWithRates env key group usdRates w) as [w1|msg w1];
    simpl in *; [|by auto].
  destruct (IH w1) as (IHt & IHn & IHq). split; [|split].
  - intros id row Hrow. destruct (Ht id row Hrow) as (row1 & Hrow1 & Ht1).
    destruct (IHt id row1 Hrow1) as (row2 & Hrow2 & Ht2).
    exists row2. split; [done|]. by eapply touched_trans.
  - auto.
  - intros p q Hpq. destruct (Hq p q Hpq) as (q1 & Hq1 & [? ?]).
    destruct (IHq p q1 Hq1) as (q2 & Hq2 & [? ?]).
    exists q2. split; [done|]. split; congruence.
Qed.

(** What one cycle keeps, whatever the database and the provider answer. *)
Lemma processPendingRequests_kept w :
  let w' := worldOf (processPendingRequests env w) in
  (∀ id row, quote_requests w !! id = Some row →
     ∃ row', quote_requests w' !! id = Some row' ∧ touched row row') ∧
  (∀ id, quote_requests w !! id = None → quote_requests w' !! id = None) ∧
  (∀ p q, quotes w !! p = Some q →
     ∃ q', quotes w' !! p = Some q' ∧ sameQuote q q').
Proof.
  assert (Hsame : ∀ w0 : World F,
            quote_requests w0 = quote_requests w → quotes w0 = quotes w →
            (∀ id row, quote_requests w !! id = Some row →
               ∃ row', quote_requests w0 !! id = Some row' ∧ touched row row') ∧
            (∀ id, quote_requests w !! id = None → quote_requests w0 !! id = None) ∧
            (∀ p q, quotes w !! p = Some q →
               ∃ q', quotes w0 !! p = Some q' ∧ sameQuote q q')).
  { intros w0 -> ->. split; [|split]; eauto using touched_refl.
    intros p q Hq. by exists q. }
  unfold processPendingRequests, GetPendingQuoteRequests, send. simpl.
  destruct (dbFails _ _ _); [by apply Hsame|].
  case_decide; [by apply Hsame|].
  match goal with
  | |- context [GetMultipleExchangeRates env ?cs ?w0] =>
    pose proof (GetMultipleExchangeRates_frame env cs w0) as (Hrs & Hqs & _);
    destruct (GetMultipleExchangeRates env cs w0) as [[[usdRates|e]|msg] w3]
  end; simpl in *.
  - rewrite <- Hrs, <- Hqs. apply rangePairs_kept.
  - unfold markAllRequestsAsFailed. split; [|split].
    + intros id row Hrow. apply updateStatuses_touched;
        [apply workerStatuses_failed|simpl; by rewrite Hrs].
    + intros id Hnone. apply updateStatuses_lookup_None. simpl. by rewrite Hrs.
    + intros p q Hq.
      destruct (updateStatuses_frame env "failed" failedMsg
        (pendingRequests (quote_requests w))
        (logErr ErrorLevel "Failed to get batch exchange rates" e None w3))
        as [-> _]. simpl. rewrite Hqs. by exists q.
  - by apply Hsame.
Qed.

(** X16. Whatever the database and the provider answer, and even when
    one of them panics, cycles create and delete no request and lose no
    quote: after any number of cycles every request is still under its id
    with its pair and creation time, its status being what it was or one of
    "processing", "completed", "failed"; an id that was not in use is still
    not in use; every quote is still under its pair with its id and
    creation time. *)
Theorem runCycles_keeps_rows n w :
  let w' := worldOf (runCycles env n w) in
  (∀ id row, quote_requests w !! id = Some row →
     ∃ row', quote_requests w' !! id = Some row' ∧ touched row row') ∧
  (∀ id, quote_requests w !! id = None → quote_requests w' !! id = None) ∧
  (∀ p q, quotes w !! p = Some q →
     ∃ q', quotes w' !! p = Some q' ∧ sameQuote q q').
Proof.
  revert w. induction n as [|n IH]; intros w; simpl.
  { split; [|split]; eauto using touched_refl. intros p q Hq. by exists q. }
  pose proof (processPendingRequests_kept w) as Hone.
  destruct (processPendingRequests env w) as [w1|msg w1]; simpl in *; [|done].
  destruct Hone as (Ht & Hn & Hq). destruct (IH w1) as (IHt & IHn & IHq).
  split; [|split].
  - intros id row Hrow. destruct (Ht id row Hrow) as (row1 & Hrow1 & Ht1).
    destruct (IHt id row1 Hrow1) as (row2 & Hrow2 & Ht2).
    exists row2. split; [done|]. by eapply touched_trans.
  - auto.
  - intros p q Hpq. destruct (Hq p q Hpq) as (q1 & Hq1 & [? ?]).
    destruct (IHq p q1 Hq1) as (q2 & Hq2 & [? ?]).
    exists q2. split; [done|]. split; congruence.
Qed.

(** ** The provider is asked once per cycle *)




(** ** The only panic of a cycle *)

Lemma GetMultipleExchangeRates_panic_msg currencies w msg :
  (GetMultipleExchangeRates env currencies w).1 = Panics msg →
  msg = "assignment to entry in nil map".
Proof.
  unfold GetMultipleExchangeRates, roundTrip. case_decide; [done|].
  destruct (http _ _ _) as [e|e|code [e|e|[[] [rates|] date]]]; simpl;
    try case_decide; simpl; try done.
  by intros [= <-].
Qed.

Lemma rangePairs_finished groups usdRates w :
  (∀ key group, (key, group) ∈ groups → group ≠ []) →
  ∃ w', rangePairs env groups usdRates w = Finished w'.
Proof.
  revert w. induction groups as [|[key group] groups IH]; intros w Hne.
  - by exists w.
  - simpl.
    destruct (processCurrencyPairWithRates_finished env key group usdRates w)
      as [w1 ->]; [apply (Hne key); left|].
    apply IH. intros k g Hin. apply (Hne k). by right.
Qed.

(** X18. The index [requests[0]] of processCurrencyPairWithRates is never
    out of range in a cycle, because no group of the pair map is empty: a
    cycle that panics does so with the nil-map assignment of the fetch,
    after its one request to the provider and before it has changed a
    request or a quote. *)
Theorem processPendingRequests_panics_only_in_fetch w msg w' :
  processPendingRequests env w = Panicked msg w' →
  msg = "assignment to entry in nil map" ∧
  quote_requests w' = quote_requests w ∧ quotes w' = quotes w ∧
  fetches w' = S (fetches w).
Proof.
  unfold processPendingRequests, GetPendingQuoteRequests, send. simpl.
  destruct (dbFails env (calls w) SelectPending); [done|].
  case_decide as Hlen; [done|].
  assert (Hsome : pendingRequests (quote_requests w) ≠ [])
    by (intros Hnil; by rewrite Hnil in Hlen).
  match goal with
  | |- context [GetMultipleExchangeRates env ?cs ?w0] =>
    pose proof (GetMultipleExchangeRates_frame env cs w0) as (Hrs & Hqs & _);
    pose proof (GetMultipleExchangeRates_fetches env cs w0
                  (extractUniqueCurrencies_nonempty _ Hsome)) as Hf;
    pose proof (GetMultipleExchangeRates_panic_msg cs w0) as Hmsg;
    destruct (GetMultipleExchangeRates env cs w0) as [[[usdRates|e]|msg0] w3]
  end; simpl in *.
  - intros Hrun.
    destruct (rangePairs_finished
      (rangeOrder env (calls w3) (groupByPair (pendingRequests (quote_requests w))))
      usdRates w3) as [w4 Hfin]; [|congruence].
    intros key group Hin. by apply rangeOrder_groupByPair in Hin as [? _].
  - done.
  - intros [= <- <-]. by rewrite (Hmsg _ eq_refl).
Qed.

(** ** A cycle settles every request it finds *)

Lemma processCurrencyPairWithRates_settles key requests usdRates w id row :
  noDbFaults env → id ∈ ID <$> requests →
  quote_requests w !! id = Some row →
  ∃ row', quote_requests
            (worldOf (processCurrencyPairWithRates env key requests usdRates w))
            !! id = Some row' ∧
          (status row' = "completed" ∨ status row' = "failed").
Proof.
  intros Hdb Hin Hrow. unfold processCurrencyPairWithRates.
  set (w1 := logMsg DebugLevel _ w).
  destruct (updateStatuses_lookup env "processing"
    "Failed to update request status to processing" requests w1 id row Hrow)
    as (row2 & Hrow2 & _).
  set (w2 := updateStatuses env "processing" _ requests w1) in *.
  destruct requests as [|first rest]; [by apply elem_of_nil in Hin|].
  destruct (CalculateExchangeRate _ _ _) as [r|e]; simpl.
  - pose proof (UpsertQuote_frame env (From first) (To first) r w2) as [Hrs _].
    destruct (UpsertQuote _ _ _ _ _) as [[?|?] w3]; simpl in *.
    + destruct (updateStatuses_done env "completed"
        "Failed to update request status to completed" (first :: rest) w3 id row2)
        as (row3 & Hrow3 & (_ & _ & _ & Hs)); [done|done|done|by rewrite Hrs|].
      exists row3. split; [done|]. by left.
    + destruct (updateStatuses_done env "failed" failedMsg (first :: rest)
        (logErr ErrorLevel "Failed to save quote to database" e None w3) id row2)
        as (row3 & Hrow3 & (_ & _ & _ & Hs));
        [done|done|done|simpl; by rewrite Hrs|].
      exists row3. split; [done|]. by right.
  - destruct (updateStatuses_done env "failed" failedMsg (first :: rest)
      (logErr ErrorLevel "Failed to calculate exchange rate" e None w2) id row2)
      as (row3 & Hrow3 & (_ & _ & _ & Hs)); [done|done|done|done|].
    exists row3. split; [done|]. by right.
Qed.

Lemma rangePairs_settles groups usdRates w id row :
  noDbFaults env →
  (∀ key group, (key, group) ∈ groups → group ≠ []) →
  (status row = "completed" ∨ status row = "failed") ∨
    (∃ key group, (key, group) ∈ groups ∧ id ∈ ID <$> group) →
  quote_requests w !! id = Some row →
  ∃ row', quote_requests (worldOf (rangePairs env groups usdRates w)) !! id
          = Some row' ∧
          (status row' = "completed" ∨ status row' = "failed").
Proof.
  intros Hdb. revert w row.
  induction groups as [|[key group] groups IH]; intros w row Hne Hin Hrow.
  { destruct Hin as [?|(k & g & Hin & _)]; [by exists row|].
    by apply elem_of_nil in Hin. }
  simpl.
  destruct (processCurrencyPairWithRates_finished env key group usdRates w)
    as [w1 Hfin]; [apply (Hne key); left|].
  pose proof (processCurrencyPairWithRates_settles key group usdRates w id row Hdb)
    as Hhere.
  pose proof (processCurrencyPairWithRates_other env key group usdRates w id)
    as Hother.
  rewrite Hfin in *. simpl in *.
  assert (Hne' : ∀ k g, (k, g) ∈ groups → g ≠ [])
    by (intros k g Hkg; apply (Hne k); by right).
  destruct (decide (id ∈ ID <$> group)) as [Hid|Hid].
  - destruct (Hhere Hid Hrow) as (row1 & Hrow1 & Hs1).
    apply (IH w1 row1); auto.
  - apply (IH w1 row); [done| |by rewrite Hother].
    destruct Hin as [?|(k & g & Hkg & Hidg)]; [by left|right].
    apply elem_of_cons in Hkg as [[= -> ->]|Hkg]; [done|]. eauto.
Qed.

(** X19. With a database that answers every statement, a cycle that ends
    settles every request it found pending, whatever the provider answered
    (rates for every currency, for some, or an error): each of them is
    completed or failed, and no request at all is left pending. A second
    cycle right after it then finds nothing to do: it changes neither table
    and sends no request to the provider. *)
Theorem processPendingRequests_settles_all w w' :
  noDbFaults env →
  processPendingRequests env w = Finished w' →
  (∀ id row, quote_requests w !! id = Some row → status row = "pending" →
     ∃ row', quote_requests w' !! id = Some row' ∧
             (status row' = "completed" ∨ status row' = "failed")) ∧
  pendingRequests (quote_requests w') = [] ∧
  ∃ w'', processPendingRequests env w' = Finished w'' ∧
         quote_requests w'' = quote_requests w' ∧ quotes w'' = quotes w' ∧
         fetches w'' = fetches w'.
Proof.
  intros Hdb Hrun.
  assert (Hsettled : ∀ id row,
    quote_requests w !! id = Some row → status row = "pending" →
    ∃ row', quote_requests w' !! id = Some row' ∧
            (status row' = "completed" ∨ status row' = "failed")).
  { intros id row Hrow Hs.
    assert (Hin : mkRequest id row ∈ pendingRequests (quote_requests w))
      by (apply elem_of_pendingRequests; eauto).
    revert Hrun.
    unfold processPendingRequests, GetPendingQuoteRequests, send. simpl.
    rewrite Hdb. case_decide as Hlen.
    { destruct (pendingRequests (quote_requests w)); [|done].
      by apply elem_of_nil in Hin. }
    match goal with
    | |- context [GetMultipleExchangeRates env ?cs ?w0] =>
      pose proof (GetMultipleExchangeRates_frame env cs w0) as (Hrs & _);
      destruct (GetMultipleExchangeRates env cs w0) as [[[usdRates|e]|msg] w3]
    end; simpl in *.
    - intros Hrun.
      destruct (rangePairs_settles
        (rangeOrder env (calls w3)
           (groupByPair (pendingRequests (quote_requests w))))
        usdRates w3 id row Hdb) as (row2 & Hrow2 & Hs2).
      + intros key group Hkg. by apply rangeOrder_groupByPair in Hkg as [? _].
      + right. destruct (groupByPair_of _ _ Hin) as (group & Hg & Hing).
        exists (pairKey (mkRequest id row)), group. split.
        * by apply elem_of_rangeOrder.
        * apply list_elem_of_fmap. by exists (mkRequest id row).
      + by rewrite Hrs.
      + rewrite Hrun in Hrow2. simpl in Hrow2. by exists row2.
    - intros [= <-]. unfold markAllRequestsAsFailed.
      destruct (updateStatuses_done env "failed" failedMsg
        (pendingRequests (quote_requests w))
        (logErr ErrorLevel "Failed to get batch exchange rates" e None w3) id row)
        as (row2 & Hrow2 & (_ & _ & _ & Hs2)); [done|done| |simpl; by rewrite Hrs|].
      + apply list_elem_of_fmap. by exists (mkRequest id row).
      + exists row2. split; [done|]. by right.
    - done. }
  assert (Hnone : pendingRequests (quote_requests w') = []).
  { apply pendingRequests_nil. intros id row' Hrow'.
    destruct (processPendingRequests_kept w) as (Hkept & Hgone & _).
    rewrite Hrun in Hkept, Hgone. simpl in Hkept, Hgone.
    destruct (quote_requests w !! id) as [row|] eqn:Hrow;
      [|rewrite (Hgone id Hrow) in Hrow'; done].
    destruct (decide (status row = "pending")) as [Hs|Hs].
    - destruct (Hsettled id row Hrow Hs) as (row2 & Hrow2 & Hs2).
      assert (row2 = row') by congruence. subst row2.
      destruct Hs2 as [Hs2|Hs2]; by rewrite Hs2.
    - destruct (Hkept id row Hrow) as (row2 & Hrow2 & Ht).
      assert (row2 = row') by congruence. subst row2.
      by eapply touched_not_pending. }
  split; [done|]. split; [done|].
  unfold processPendingRequests, GetPendingQuoteRequests, send. simpl.
  rewrite Hdb, Hnone. simpl. eauto.
Qed.

(** ** Quotes are written for pending pairs only *)

Lemma rangePairs_other_pairs groups usdRates w p :
  (∀ key group first, (key, group) ∈ groups → head group = Some first →
     p ≠ (From first, To first)) →
  quotes (worldOf (rangePairs env groups usdRates w)) !! p = quotes w !! p.
Proof.
  revert w. induction groups as [|[key group] groups IH]; intros w Hp; [done|].
  simpl.
  pose proof (processCurrencyPairWithRates_other_pair env key group usdRates w p)
    as Hone.
  destruct (processCurrencyPairWithRates env key group usdRates w) as [w1|msg w1];
    simpl in *.
  - rewrite IH.
    + apply Hone. intros first. apply (Hp key). left.
    + intros k g first Hin. apply (Hp k). by right.
  - apply Hone. intros first. apply (Hp key). left.
Qed.

(** X20. Whatever the database and the provider answer, a cycle creates or
    replaces quotes only for pairs that have a pending request when it
    starts: the quote of every other pair, present or absent, is the same
    after the cycle as before. *)
Theorem processPendingRequests_quotes_of_pending w p :
  (∀ id row, quote_requests w !! id = Some row → status row = "pending" →
     p ≠ (from_currency row, to_currency row)) →
  quotes (worldOf (processPendingRequests env w)) !! p = quotes w !! p.
Proof.
  intros Hp.
  unfold processPendingRequests, GetPendingQuoteRequests, send. simpl.
  destruct (dbFails _ _ _); [done|].
  case_decide; [done|].
  match goal with
  | |- context [GetMultipleExchangeRates env ?cs ?w0] =>
    pose proof (GetMultipleExchangeRates_frame env cs w0) as (_ & Hqs & _);
    destruct (GetMultipleExchangeRates env cs w0) as [[[usdRates|e]|msg] w3]
  end; simpl in *.
  - rewrite rangePairs_other_pairs; [by rewrite Hqs|].
    intros key group first Hkg Hhead.
    apply rangeOrder_groupByPair in Hkg as [_ Hgroup].
    apply head_Some_elem_of, Hgroup in Hhead as [Hin _].
    apply elem_of_pendingRequests in Hin as (id & row & -> & Hrow & Hs).
    simpl. by apply (Hp id row).
  - unfold markAllRequestsAsFailed.
    destruct (updateStatuses_frame env "failed" failedMsg
      (pendingRequests (quote_requests w))
      (logErr ErrorLevel "Failed to get batch exchange rates" e None w3))
      as [-> _]. simpl. by rewrite Hqs.
  - by rewrite Hqs.
Qed.

(** ** A completed request has its quote *)





End cycle.

(** ** The properties on the scenarios of the specification *)

Lemma threeRequests_rows id row :
  quote_requests threeRequests !! id = Some row → status row = "pending" →
  (from_currency row, to_currency row)
    ∈ [("EUR", "MXN"); ("USD", "EUR"); ("EUR", "CAD")].
Proof.
  intros Hrow Hs.
  assert (Hin : mkRequest id row ∈ pendingRequests (quote_requests threeRequests))
    by (apply elem_of_pendingRequests; eauto).
  rewrite Scenarios.threeRequests_pending in Hin.
  rewrite !elem_of_cons, elem_of_nil in Hin. rewrite !elem_of_cons.
  destruct Hin as [Heq|[Heq|[Heq|[]]]]; injection Heq as _ -> -> _ _ _; auto.
Qed.

Lemma runCycles_keeps_rows_witness :
  ∃ row', quote_requests (worldOf (runCycles quietEnv 2 threeRequests)) !! "1005"
          = Some row' ∧ touched eurCadRow row'.
Proof.
  destruct (runCycles_keeps_rows quietEnv 2 threeRequests) as [Hkept _].
  apply (Hkept "1005" eurCadRow). reflexivity.
Defined.


Lemma processPendingRequests_panics_only_in_fetch_witness :
  ∃ w', processPendingRequests noRatesEnv oneRequest
        = Panicked "assignment to entry in nil map" w' ∧
        quote_requests w' = quote_requests oneRequest ∧
        fetches w' = S (fetches oneRequest).
Proof.
  eexists. split; [vm_compute; reflexivity|].
  match goal with
  | |- quote_requests ?w' = _ ∧ _ =>
    destruct (processPendingRequests_panics_only_in_fetch noRatesEnv oneRequest
                "assignment to entry in nil map" w') as (_ & Hrs & _ & Hf)
  end.
  - vm_compute. reflexivity.
  - split; [exact Hrs|exact Hf].
Defined.

Lemma processPendingRequests_settles_all_witness :
  (∀ id row, quote_requests threeRequests !! id = Some row →
     status row = "pending" →
     ∃ row', quote_requests afterOneCycle !! id = Some row' ∧
             (status row' = "completed" ∨ status row' = "failed")) ∧
  pendingRequests (quote_requests afterOneCycle) = [] ∧
  ∃ w'', processPendingRequests quietEnv afterOneCycle = Finished w'' ∧
         quote_requests w'' = quote_requests afterOneCycle ∧
         quotes w'' = quotes afterOneCycle ∧
         fetches w'' = fetches afterOneCycle.
Proof.
  apply (processPendingRequests_settles_all quietEnv threeRequests afterOneCycle).
  - exact Scenarios.quietEnv_noDbFaults.
  - vm_compute. reflexivity.
Defined.

Lemma processPendingRequests_quotes_of_pending_witness :
  quotes (worldOf (processPendingRequests quietEnv threeRequests)) !! ("MXN", "EUR")
  = quotes threeRequests !! ("MXN", "EUR").
Proof.
  apply (processPendingRequests_quotes_of_pending quietEnv threeRequests).
  intros id row Hrow Hs Heq.
  pose proof (threeRequests_rows id row Hrow Hs) as Hin.
  rewrite <- Heq, !elem_of_cons, elem_of_nil in Hin.
  destruct Hin as [?|[?|[?|[]]]]; discriminate.
Defined.


End CycleProps.

(** ** package handlers: what the API answers *)

Module HandlerProps.
Import Utils Database Handlers RequestStore StoreProps.

Lemma IsSupportedCurrencyFromList_elem (currency : string) (l : list string) :
  IsSupportedCurrencyFromList currency l = true ↔ currency ∈ l.
Proof.
  unfold IsSupportedCurrencyFromList. rewrite existsb_exists. split.
  - intros (supported & Hin & Heq). apply bool_decide_eq_true in Heq as <-.
    by apply list_elem_of_In.
  - intros Hin. exists currency. split; [by apply list_elem_of_In|].
    by apply bool_decide_eq_true.
Qed.

Lemma IsSupportedCurrencyFromList_not_elem (currency : string) (l : list string) :
  negb (IsSupportedCurrencyFromList currency l) = true ↔ currency ∉ l.
Proof.
  rewrite <- IsSupportedCurrencyFromList_elem, negb_true_iff.
  by destruct (IsSupportedCurrencyFromList currency l).
Qed.

Section handlers.
Context {F : Type} (env : Env F) (lib : Lib F) (h : Handler).
Implicit Types (w : World F).

Lemma writeJSONResponse_spec code data w :
  let res := writeJSONResponse lib code data w in
  statusCode res.1 = Some code ∧ encoded res.1 = Some data ∧ sameStore w res.2.
Proof. unfold writeJSONResponse. by destruct (encodeFails lib data). Qed.

Lemma writeErrorResponse_spec code error message w :
  let res := writeErrorResponse lib code error message w in
  statusCode res.1 = Some code ∧
  encoded res.1 = Some (ErrorData {| Error := error; Message := message |}) ∧
  sameStore w res.2.
Proof. apply writeJSONResponse_spec. Qed.

#[local] Arguments writeJSONResponse : simpl never.
#[local] Arguments writeErrorResponse : simpl never.
#[local] Arguments CreateOrGetPendingQuoteRequest : simpl never.
#[local] Arguments GetQuoteRequest : simpl never.
#[local] Arguments GetQuote : simpl never.

(** X22. [UpdateQuote] answers 400 exactly when the body does not decode,
    when one of the two codes is blank, when the two normalized codes are
    equal, or when one of them is not in the list of supported currencies;
    and a request it answers with 400 sends no statement to the database
    and leaves both tables as they were. *)
Theorem UpdateQuote_bad_request body w :
  let res := UpdateQuote env lib h body w in
  (statusCode res.1 = Some 400%Z ↔
   match body with
   | DecodeFails _ => True
   | Decodes req =>
     TrimSpace lib (UpdateFrom req) = "" ∨ TrimSpace lib (UpdateTo req) = "" ∨
     normalized lib (UpdateFrom req) = normalized lib (UpdateTo req) ∨
     normalized lib (UpdateFrom req) ∉ supportedCurrencies h ∨
     normalized lib (UpdateTo req) ∉ supportedCurrencies h
   end) ∧
  (statusCode res.1 = Some 400%Z → sameStore w res.2).
Proof.
  unfold UpdateQuote, normalized.
  destruct body as [err|req].
  { destruct (writeErrorResponse_spec 400 "Invalid JSON" (errorText err) w)
      as (Hcode & _ & Hsame). by rewrite Hcode. }
  repeat case_decide;
    try (match goal with
         | |- context [writeErrorResponse lib 400 ?e ?m w] =>
           destruct (writeErrorResponse_spec 400 e m w) as (Hcode & _ & Hsame)
         end; rewrite Hcode; split; [split; [tauto|done]|done]).
  destruct (negb (IsSupportedCurrencyFromList _ _)) eqn:Hfrom.
  { apply IsSupportedCurrencyFromList_not_elem in Hfrom.
    match goal with
    | |- context [writeErrorResponse lib 400 ?e ?m w] =>
      destruct (writeErrorResponse_spec 400 e m w) as (Hcode & _ & Hsame)
    end. rewrite Hcode. split; [split; [tauto|done]|done]. }
  destruct (negb (IsSupportedCurrencyFromList
                    (ToUpper lib (TrimSpace lib (UpdateTo req))) _)) eqn:Hto.
  { apply IsSupportedCurrencyFromList_not_elem in Hto.
    match goal with
    | |- context [writeErrorResponse lib 400 ?e ?m w] =>
      destruct (writeErrorResponse_spec 400 e m w) as (Hcode & _ & Hsame)
    end. rewrite Hcode. split; [split; [tauto|done]|done]. }
  apply negb_false_iff, IsSupportedCurrencyFromList_elem in Hfrom, Hto.
  assert (Hno : ∀ resp : list (WriterCall F),
    (statusCode resp = Some 500%Z ∨ statusCode resp = Some 200%Z) →
    ∀ w', (statusCode resp = Some 400%Z ↔
            TrimSpace lib (UpdateFrom req) = "" ∨ TrimSpace lib (UpdateTo req) = "" ∨
            ToUpper lib (TrimSpace lib (UpdateFrom req))
              = ToUpper lib (TrimSpace lib (UpdateTo req)) ∨
            ToUpper lib (TrimSpace lib (UpdateFrom req)) ∉ supportedCurrencies h ∨
            ToUpper lib (TrimSpace lib (UpdateTo req)) ∉ supportedCurrencies h) ∧
          (statusCode resp = Some 400%Z → sameStore w w')).
  { intros resp Hresp w'. split; [split|].
    - intros H400. rewrite H400 in Hresp. by destruct Hresp.
    - intros [?|[?|[?|[?|?]]]]; done.
    - intros H400. rewrite H400 in Hresp. by destruct Hresp. }
  destruct (CreateOrGetPendingQuoteRequest env _ _ w) as [[quoteRequest|err] w1].
  - apply Hno. right. apply writeJSONResponse_spec.
  - apply Hno. left. apply writeErrorResponse_spec.
Qed.

(** ** An accepted update *)

Lemma CreateOrGetPending_footprint from to w req w1 :
  CreateOrGetPendingQuoteRequest env from to w = (Ok req, w1) →
  quotes w1 = quotes w ∧
  ∀ id, id ≠ ID req → quote_requests w1 !! id = quote_requests w !! id.
Proof.
  intros Hrun.
  destruct (GetPendingQuoteRequestByPair env from to w) as [[found|e] w0] eqn:Hget.
  - destruct (CreateOrGetPending_found env _ _ _ _ _ Hget) as (Hr & Hqs & Hrs).
    rewrite Hrun in Hr, Hqs, Hrs. simpl in Hr, Hqs, Hrs.
    injection Hr as ->. split; [done|]. intros id Hne.
    destruct Hrs as [-> | ->]; [done|]. by rewrite lookup_alter_ne.
  - rewrite (CreateOrGetPending_not_found env _ _ _ _ _ Hget) in Hrun.
    destruct (GetPendingQuoteRequestByPair_frame env from to w)
      as (Hrs0 & Hqs0 & _).
    rewrite Hget in Hrs0, Hqs0. simpl in Hrs0, Hqs0.
    destruct (CreateQuoteRequest_frame env from to w0) as (Hqs & _).
    destruct (CreateQuoteRequest_cases env from to w0)
      as [[Herr _]|(Hr & _ & _ & Hrs)].
    + by rewrite Hrun in Herr.
    + rewrite Hrun in Hr, Hrs, Hqs. simpl in Hr, Hrs, Hqs.
      injection Hr as ->. split; [congruence|]. intros id Hne.
      rewrite Hrs. simpl in Hne. rewrite lookup_insert_ne by done.
      by rewrite Hrs0.
Qed.

Lemma UpdateQuote_accepted body w :
  let res := UpdateQuote env lib h body w in
  statusCode res.1 = Some 200%Z →
  ∃ req quoteRequest w1,
    body = Decodes req ∧
    normalized lib (UpdateFrom req) ≠ normalized lib (UpdateTo req) ∧
    normalized lib (UpdateFrom req) ∈ supportedCurrencies h ∧
    normalized lib (UpdateTo req) ∈ supportedCurrencies h ∧
    CreateOrGetPendingQuoteRequest env (normalized lib (UpdateFrom req))
      (normalized lib (UpdateTo req)) w = (Ok quoteRequest, w1) ∧
    encoded res.1
      = Some (UpdateData {| ResponseID := ID quoteRequest;
                            ResponseFrom := From quoteRequest;
                            ResponseTo := To quoteRequest;
                            ResponseStatus := Status quoteRequest |}) ∧
    sameStore w1 res.2.
Proof.
  unfold UpdateQuote, normalized.
  destruct body as [err|req].
  { destruct (writeErrorResponse_spec 400 "Invalid JSON" (errorText err) w)
      as (Hcode & _). simpl. by rewrite Hcode. }
  repeat case_decide;
    try (match goal with
         | |- context [writeErrorResponse lib 400 ?e ?m w] =>
           destruct (writeErrorResponse_spec 400 e m w) as (Hcode & _)
         end; simpl; by rewrite Hcode).
  destruct (negb (IsSupportedCurrencyFromList _ _)) eqn:Hfrom.
  { match goal with
    | |- context [writeErrorResponse lib 400 ?e ?m w] =>
      destruct (writeErrorResponse_spec 400 e m w) as (Hcode & _)
    end. simpl. by rewrite Hcode. }
  destruct (negb (IsSupportedCurrencyFromList
                    (ToUpper lib (TrimSpace lib (UpdateTo req))) _)) eqn:Hto.
  { match goal with
    | |- context [writeErrorResponse lib 400 ?e ?m w] =>
      destruct (writeErrorResponse_spec 400 e m w) as (Hcode & _)
    end. simpl. by rewrite Hcode. }
  apply negb_false_iff, IsSupportedCurrencyFromList_elem in Hfrom, Hto.
  destruct (CreateOrGetPendingQuoteRequest env _ _ w)
    as [[quoteRequest|err] w1] eqn:Hrun.
  - match goal with
    | |- context [writeJSONResponse lib 200 ?d ?w0] =>
      destruct (writeJSONResponse_spec 200 d w0) as (_ & Hdata & Hsame)
    end.
    simpl. intros _. exists req, quoteRequest, w1.
    destruct Hsame as (? & ? & ? & ? & ?). by repeat split.
  - match goal with
    | |- context [writeErrorResponse lib 500 ?e ?m ?w0] =>
      destruct (writeErrorResponse_spec 500 e m w0) as (Hcode & _)
    end. simpl. by rewrite Hcode.
Qed.

(** X23. What [UpdateQuote] answers with 200, whatever the database did:
    the response names a request that is in the store, pending, for the
    normalized pair of the body; the two codes are different and both
    supported; no other request and no quote was changed. *)
Theorem UpdateQuote_answers_pending_request body w :
  let res := UpdateQuote env lib h body w in
  statusCode res.1 = Some 200%Z →
  ∃ req response row,
    body = Decodes req ∧ encoded res.1 = Some (UpdateData response) ∧
    ResponseFrom response = normalized lib (UpdateFrom req) ∧
    ResponseTo response = normalized lib (UpdateTo req) ∧
    ResponseStatus response = "pending" ∧
    ResponseFrom response ≠ ResponseTo response ∧
    ResponseFrom response ∈ supportedCurrencies h ∧
    ResponseTo response ∈ supportedCurrencies h ∧
    quote_requests res.2 !! ResponseID response = Some row ∧
    isPendingFor (ResponseFrom response) (ResponseTo response) row ∧
    quotes res.2 = quotes w ∧
    ∀ id, id ≠ ResponseID response →
          quote_requests res.2 !! id = quote_requests w !! id.
Proof.
  intros res H200.
  destruct (UpdateQuote_accepted body w H200)
    as (req & quoteRequest & w1 & -> & Hne & Hfrom & Hto & Hrun & Hdata & Hsame).
  fold res in Hdata, Hsame. destruct Hsame as (Hrs & Hqs & _).
  pose proof (CreateOrGetPending_returned_row env
    (normalized lib (UpdateFrom req)) (normalized lib (UpdateTo req))
    w quoteRequest) as Hrow.
  rewrite Hrun in Hrow.
  destruct (Hrow eq_refl) as (Hf & Ht & Hs & row & Hlook & Hpending & _).
  destruct (CreateOrGetPending_footprint _ _ _ _ _ Hrun) as (Hquotes & Hother).
  exists req, {| ResponseID := ID quoteRequest; ResponseFrom := From quoteRequest;
                 ResponseTo := To quoteRequest;
                 ResponseStatus := Status quoteRequest |}, row.
  simpl. rewrite Hrs, Hqs.
  rewrite <- Hf in Hne, Hfrom, Hpending. rewrite <- Ht in Hne, Hto, Hpending.
  destruct Hpending as (? & ? & ?). by repeat split.
Qed.

(** ** Reading a quote *)

(** ** Reading a quote *)


Lemma GetQuote_cases from to w :
  let res := GetQuote env from to w in
  quote_requests res.2 = quote_requests w ∧ quotes res.2 = quotes w ∧
  match res.1 with
  | Ok quote => ∃ q, quotes w !! (from, to) = Some q ∧ quote = mkQuote from to q
  | Err _ => dbFails env (calls w) (SelectQuote from to) = true ∨
             quotes w !! (from, to) = None
  end.
Proof.
  unfold GetQuote, send. simpl.
  destruct (dbFails _ _ _); simpl; [repeat split; auto|].
  destruct (quotes w !! (from, to)) as [q|]; simpl; repeat split; eauto.
Qed.


(** X25. [GetLatestQuote] reads only, and it answers 200, 400 or 404,
    never 500: an error of the database is reported like a missing quote,
    as 404. It answers 200 only for two supported codes, with the quote
    the store holds for the normalized pair. *)
Theorem GetLatestQuote_answers query w :
  let from := normalized lib (queryGet query "from") in
  let to := normalized lib (queryGet query "to") in
  let res := GetLatestQuote env lib h query w in
  quote_requests res.2 = quote_requests w ∧ quotes res.2 = quotes w ∧
  statusCode res.1 ∈ [Some 200%Z; Some 400%Z; Some 404%Z] ∧
  (statusCode res.1 = Some 200%Z →
     ∃ q, from ∈ supportedCurrencies h ∧ to ∈ supportedCurrencies h ∧
          quotes w !! (from, to) = Some q ∧
          encoded res.1 = Some (QuoteData (quoteResponse (mkQuote from to q)))) ∧
  (statusCode res.1 = Some 404%Z →
     from ∈ supportedCurrencies h ∧ to ∈ supportedCurrencies h ∧
     (dbFails env (calls w) (SelectQuote from to) = true ∨
      quotes w !! (from, to) = None)).
Proof.
  unfold GetLatestQuote, normalized. simpl.
  assert (Hbad : ∀ e m,
    let res := writeErrorResponse lib 400 e m w in
    quote_requests res.2 = quote_requests w ∧ quotes res.2 = quotes w ∧
    statusCode res.1 ∈ [Some 200%Z; Some 400%Z; Some 404%Z] ∧
    (statusCode res.1 = Some 200%Z →
       ∃ q, ToUpper lib (TrimSpace lib (queryGet query "from"))
              ∈ supportedCurrencies h ∧
            ToUpper lib (TrimSpace lib (queryGet query "to"))
              ∈ supportedCurrencies h ∧
            quotes w !! (ToUpper lib (TrimSpace lib (queryGet query "from")),
                         ToUpper lib (TrimSpace lib (queryGet query "to")))
            = Some q ∧
            encoded res.1
            = Some (QuoteData (quoteResponse
                (mkQuote (ToUpper lib (TrimSpace lib (queryGet query "from")))
                   (ToUpper lib (TrimSpace lib (queryGet query "to"))) q)))) ∧
    (statusCode res.1 = Some 404%Z →
       ToUpper lib (TrimSpace lib (queryGet query "from")) ∈ supportedCurrencies h ∧
       ToUpper lib (TrimSpace lib (queryGet query "to")) ∈ supportedCurrencies h ∧
       (dbFails env (calls w)
          (SelectQuote (ToUpper lib (TrimSpace lib (queryGet query "from")))
             (ToUpper lib (TrimSpace lib (queryGet query "to")))) = true ∨
        quotes w !! (ToUpper lib (TrimSpace lib (queryGet query "from")),
                     ToUpper lib (TrimSpace lib (queryGet query "to"))) = None))).
  { intros e m.
    destruct (writeErrorResponse_spec 400 e m w) as (Hcode & _ & Hrs & Hqs & _).
    simpl. rewrite Hcode. split; [done|]. split; [done|].
    split; [right; left|]. by split. }
  case_decide; [apply Hbad|]. case_decide; [apply Hbad|].
  destruct (negb (IsSupportedCurrencyFromList _ _)) eqn:Hfrom; [apply Hbad|].
  destruct (negb (IsSupportedCurrencyFromList
                    (ToUpper lib (TrimSpace lib (queryGet query "to"))) _))
    eqn:Hto; [apply Hbad|].
  apply negb_false_iff, IsSupportedCurrencyFromList_elem in Hfrom, Hto.
  clear Hbad.
  pose proof (GetQuote_cases (ToUpper lib (TrimSpace lib (queryGet query "from")))
                (ToUpper lib (TrimSpace lib (queryGet query "to"))) w)
    as (Hrs1 & Hqs1 & Hgot).
  destruct (GetQuote env _ _ w) as [[quote|err] w1]; simpl in Hrs1, Hqs1, Hgot.
  - destruct Hgot as (q & Hq & ->).
    match goal with
    | |- context [writeJSONResponse lib 200 ?d ?w0] =>
      destruct (writeJSONResponse_spec 200 d w0) as (Hcode & Hdata & Hrs & Hqs & _)
    end.
    simpl in Hrs, Hqs. rewrite Hcode, Hdata, Hrs, Hqs.
    split; [done|]. split; [done|]. split; [left|]. split; [|done].
    intros _. by exists q.
  - match goal with
    | |- context [writeErrorResponse lib 404 ?e ?m ?w0] =>
      destruct (writeErrorResponse_spec 404 e m w0) as (Hcode & _ & Hrs & Hqs & _)
    end.
    simpl in Hrs, Hqs. rewrite Hcode, Hrs, Hqs.
    split; [done|]. split; [done|]. split; [do 2 right; left|]. by split.
Qed.

(** X26. Asking for the quote of a request right after [UpdateQuote]
    answered 200 for it: when the database answers the look-up,
    [GetQuoteByID] with the id of the response answers 400, "Request not
    completed", with the status "pending" in its message. *)
Theorem UpdateQuote_then_GetQuoteByID body w response vars :
  let res := UpdateQuote env lib h body w in
  statusCode res.1 = Some 200%Z →
  encoded res.1 = Some (UpdateData response) →
  vars !! "id" = Some (ResponseID response) →
  TrimSpace lib (ResponseID response) ≠ "" →
  dbFails env (calls res.2) (SelectRequest (ResponseID response)) = false →
  let res' := GetQuoteByID env lib vars res.2 in
  statusCode res'.1 = Some 400%Z ∧
  encoded res'.1
  = Some (ErrorData {| Error := "Request not completed";
                       Message := "Quote request is not completed yet. Status: pending" |}).
Proof.
  intros res H200 Hresp Hvars Hid Hdb.
  destruct (UpdateQuote_accepted body w H200)
    as (req & quoteRequest & w1 & -> & _ & _ & _ & Hrun & Hdata & Hsame).
  fold res in Hdata, Hsame. destruct Hsame as (Hrs & _).
  rewrite Hresp in Hdata. injection Hdata as ->. simpl in *.
  pose proof (CreateOrGetPending_returned_row env
    (normalized lib (UpdateFrom req)) (normalized lib (UpdateTo req))
    w quoteRequest) as Hrow.
  rewrite Hrun in Hrow.
  destruct (Hrow eq_refl) as (_ & _ & _ & row & Hlook & (_ & _ & Hpending) & _).
  simpl in Hlook. rewrite <- Hrs in Hlook.
  unfold GetQuoteByID. rewrite Hvars. simpl.
  rewrite decide_False by done.
  unfold GetQuoteRequest, send. simpl. rewrite Hdb, Hlook. simpl.
  rewrite decide_True by (by rewrite Hpending). rewrite Hpending.
  match goal with
  | |- context [writeErrorResponse lib 400 ?e ?m ?w0] =>
    destruct (writeErrorResponse_spec 400 e m w0) as (Hcode & Hdata & _)
  end.
  by rewrite Hcode, Hdata.
Qed.

End handlers.

(** ** The handlers on the scenario of the specification *)

Lemma UpdateQuote_answers_pending_request_witness :
  ∃ response,
    encoded (UpdateQuote quietEnv asciiLib defaultHandler eurMxnBody emptyWorld).1
    = Some (UpdateData response) ∧
    ResponseFrom response = "EUR" ∧ ResponseTo response = "MXN" ∧
    ResponseStatus response = "pending".
Proof.
  assert (H200 : statusCode
            (UpdateQuote quietEnv asciiLib defaultHandler eurMxnBody emptyWorld).1
          = Some 200%Z) by (vm_compute; reflexivity).
  destruct (UpdateQuote_answers_pending_request quietEnv asciiLib defaultHandler
              eurMxnBody emptyWorld H200)
    as (req & response & row & Hbody & Hdata & Hf & Ht & Hs & _).
  injection Hbody as <-. exists response.
  split; [exact Hdata|]. split; [rewrite Hf; reflexivity|].
  split; [rewrite Ht; reflexivity|exact Hs].
Defined.

Lemma UpdateQuote_then_GetQuoteByID_witness :
  let res := UpdateQuote quietEnv asciiLib defaultHandler eurMxnBody emptyWorld in
  let res' := GetQuoteByID quietEnv asciiLib {["id" := "1001"]} res.2 in
  statusCode res'.1 = Some 400%Z ∧
  encoded res'.1
  = Some (ErrorData {| Error := "Request not completed";
                       Message := "Quote request is not completed yet. Status: pending" |}).
Proof.
  apply (UpdateQuote_then_GetQuoteByID quietEnv asciiLib defaultHandler eurMxnBody
           emptyWorld
           {| ResponseID := "1001"; ResponseFrom := "EUR"; ResponseTo := "MXN";
              ResponseStatus := "pending" |}).
  - vm_compute. reflexivity.
  - vm_compute. reflexivity.
  - reflexivity.
  - vm_compute. discriminate.
  - reflexivity.
Defined.

End HandlerProps.
